(** * SmartCalculator: lexer, shunting-yard converter and postfix evaluator

    A shallow embedding of [SmartCalculator/SmartCalculator.cpp].

    - [double] is the kernel's binary64 float ([PrimFloat.float]); the
      arithmetic of the source ([+ - * /], [==]) is the IEEE one.
    - The functions the source takes from the C mathematics library
      ([pow sin cos tan log sqrt exp]) are a record [libm]; every
      definition and theorem is taken over an arbitrary [libm].
    - [std::string] is [string]; the pair (expression, index) of the
      lexer is carried as the suffix [expression.substr(index)], so that
      [index++] drops the first character and [index < expression.size()]
      asks for a non-empty suffix.
    - [std::map<std::string, double>] is [gmap string float].
    - [std::stack] is a list whose head is the top.  [top()] and [pop()]
      on an empty stack are outside the container's contract: the
      outcome [Undefined].
    - [throw std::runtime_error(msg)] is the outcome [Throw (runtime_error msg)].
    - The variable store is passed by reference in the source: every
      computation returns the store it leaves behind, also when it throws.
    - [isspace], [isdigit], [isalpha] and [isalnum] are those of the "C"
      locale; a byte from 128 on is in no class.
    - [int decimals] is an integer; incrementing it at [INT_MAX] is the
      outcome [Undefined]. *)

From Stdlib Require Import ZArith Ascii String List Bool Lia.
From Stdlib Require Import Floats.PrimFloat Numbers.Cyclic.Int63.Uint63.
From stdpp Require Import gmap strings.
Import ListNotations.

Local Open Scope string_scope.
Local Open Scope list_scope.

(** ** Outcomes *)

Inductive exception : Type :=
| runtime_error (what : string).

Inductive outcome (A : Type) : Type :=
| Ok (a : A)
| Throw (e : exception)
| Undefined
| OutOfFuel.

Arguments Ok {A} a.
Arguments Throw {A} e.
Arguments Undefined {A}.
Arguments OutOfFuel {A}.

(** The messages of the five [throw] sites. *)
Definition UnexpectedCharacter (c : ascii) : exception :=
  runtime_error ("Unexpected character: " ++ String c "").
Definition DivisionByZero : exception := runtime_error "Division by zero".
Definition UnknownOperator : exception := runtime_error "Unknown operator".
Definition UnknownFunction (func : string) : exception :=
  runtime_error ("Unknown function: " ++ func).
Definition UndefinedVariable (name : string) : exception :=
  runtime_error ("Undefined variable: " ++ name).

(** ** The store monad: [std::map<std::string, double>&] threaded through *)

Abbreviation store := (gmap string float).

Definition M (A : Type) : Type := store -> outcome A * store.

Definition ret {A} (a : A) : M A := fun variables => (Ok a, variables).

Definition lift {A} (o : outcome A) : M A := fun variables => (o, variables).

Definition bind {A B} (c : M A) (k : A -> M B) : M B :=
  fun variables =>
    match c variables with
    | (Ok a, variables') => k a variables'
    | (Throw e, variables') => (Throw e, variables')
    | (Undefined, variables') => (Undefined, variables')
    | (OutOfFuel, variables') => (OutOfFuel, variables')
    end.

Notation "x <- c ;; k" := (bind c (fun x => k))
  (at level 100, c at next level, right associativity).

(** [variables.find(name) != variables.end()] *)
Definition map_contains (name : string) : M bool :=
  fun variables => (Ok (bool_decide (is_Some (variables !! name))), variables).

(** [variables[name]] read as an rvalue: [operator[]] inserts a
    value-initialised entry when the key is absent. *)
Definition map_index (name : string) : M float :=
  fun variables =>
    match variables !! name with
    | Some v => (Ok v, variables)
    | None => (Ok 0%float, <[name := 0%float]> variables)
    end.

(** [variables[name] = value] *)
Definition map_assign (name : string) (value : float) : M unit :=
  fun variables => (Ok tt, <[name := value]> variables).

(** ** [std::stack] *)

Definition stack_top {A} (stack : list A) : outcome A :=
  match stack with
  | top :: _ => Ok top
  | [] => Undefined
  end.

Definition stack_pop {A} (stack : list A) : outcome (list A) :=
  match stack with
  | _ :: stack' => Ok stack'
  | [] => Undefined
  end.

(** ** Tokens *)

Inductive TokenType : Type :=
| NUMBER | OPERATOR | FUNCTION | VARIABLE | ASSIGNMENT | PARENTHESIS | END.

Record Token : Type := mkToken {
  type : TokenType;
  value : float;
  op : ascii;
  func : string
}.

(** The brace initialisers of the source, one per kind of token. *)
Abbreviation number_token v := (mkToken NUMBER v Ascii.zero "").
Abbreviation operator_token c := (mkToken OPERATOR 0 c "").
Abbreviation parenthesis_token c := (mkToken PARENTHESIS 0 c "").
Abbreviation function_token name := (mkToken FUNCTION 0 Ascii.zero name).
Abbreviation variable_token name := (mkToken VARIABLE 0 Ascii.zero name).
Abbreviation assignment_token name := (mkToken ASSIGNMENT 0 Ascii.zero name).
Abbreviation end_token := (mkToken END 0 Ascii.zero "").

(** ** Characters: the "C" locale classification of <cctype> *)

Definition code (c : ascii) : N := N_of_ascii c.

Definition isspace (c : ascii) : bool :=
  ((9 <=? code c) && (code c <=? 13) || (code c =? 32))%N.

Definition isdigit (c : ascii) : bool :=
  ((48 <=? code c) && (code c <=? 57))%N.

Definition isalpha (c : ascii) : bool :=
  ((65 <=? code c) && (code c <=? 90) || (97 <=? code c) && (code c <=? 122))%N.

Definition isalnum (c : ascii) : bool := isalpha c || isdigit c.

(** [strchr(s, c) != nullptr]: the terminating NUL is part of [s]. *)
Fixpoint strchr (s : string) (c : ascii) : bool :=
  match s with
  | EmptyString => Ascii.eqb c Ascii.zero
  | String a s' => Ascii.eqb a c || strchr s' c
  end.

(** ** Conversions from [int] to [double] *)

Definition INT_MAX : Z := 2147483647.

Definition int_to_double (z : Z) : float :=
  if (z <? 0)%Z then PrimFloat.opp (of_uint63 (Uint63.of_Z (- z)))
  else of_uint63 (Uint63.of_Z z).

(** [c - '0'] *)
Definition digit_of (c : ascii) : Z := (Z.of_N (code c) - 48)%Z.

(** ** The static tables *)

Definition precedences : list (ascii * Z) :=
  [("+"%char, 1%Z); ("-"%char, 1%Z); ("*"%char, 2%Z); ("/"%char, 2%Z); ("^"%char, 3%Z)].

Definition functions : list string :=
  ["sin"; "cos"; "tan"; "log"; "sqrt"; "exp"].

(** [functions.count(name)] *)
Definition functions_count (name : string) : bool :=
  existsb (String.eqb name) functions.

Fixpoint find_precedence (table : list (ascii * Z)) (c : ascii) : option Z :=
  match table with
  | [] => None
  | (k, p) :: table' => if Ascii.eqb k c then Some p else find_precedence table' c
  end.

Definition GetPrecedence (c : ascii) : Z :=
  match find_precedence precedences c with
  | Some p => p
  | None => 0%Z
  end.

(** ** The mathematics library *)

Record libm : Type := mkLibm {
  pow : float -> float -> float;
  sin : float -> float;
  cos : float -> float;
  tan : float -> float;
  log : float -> float;
  sqrt : float -> float;
  exp : float -> float
}.

(** A reference instance to run examples with: exact where the C
    standard fixes the result on representable values (integral powers by
    repeated multiplication, the IEEE square root, the values at 0 and 1),
    NaN elsewhere. *)
Fixpoint pow_nat (x : float) (n : nat) : float :=
  match n with
  | O => 1%float
  | S n' => PrimFloat.mul x (pow_nat x n')
  end.

Definition pow_ref (x y : float) : float :=
  match List.find (fun n => PrimFloat.eqb (int_to_double (Z.of_nat n)) (PrimFloat.abs y)) (seq 0 64) with
  | Some n =>
      if PrimFloat.ltb y 0%float then PrimFloat.div 1%float (pow_nat x n) else pow_nat x n
  | None => nan
  end.

Definition at_point (x0 y0 : float) (x : float) : float :=
  if PrimFloat.eqb x x0 then y0 else nan.

Definition libm_ref : libm :=
  {| pow := pow_ref;
     sin := at_point 0 0;
     cos := at_point 0 1;
     tan := at_point 0 0;
     log := at_point 1 0;
     sqrt := PrimFloat.sqrt;
     exp := at_point 0 1 |}.

Section Calculator.

Variable m : libm.

(** ** Lexer: [GetNextToken] *)

(** [while (index < expression.size() && isspace(expression[index])) index++;] *)
Fixpoint skip_space (expression : string) : string :=
  match expression with
  | String c rest => if isspace c then skip_space rest else expression
  | EmptyString => expression
  end.

(** The digit loop of lines 96-119.  [decimals++] on [INT_MAX] is a
    signed overflow. *)
Fixpoint read_number (expression : string) (num : float) (decimals : Z)
  : outcome (float * string) :=
  match expression with
  | String c rest =>
      if isdigit c || Ascii.eqb c "." then
        if Ascii.eqb c "." then read_number rest num 0%Z
        else if (decimals =? -1)%Z then
          read_number rest
            (PrimFloat.add (PrimFloat.mul num (int_to_double 10)) (int_to_double (digit_of c)))
            decimals
        else if (decimals =? INT_MAX)%Z then Undefined
        else
          read_number rest
            (PrimFloat.add num
               (PrimFloat.mul (int_to_double (digit_of c))
                  (pow m (int_to_double 10) (int_to_double (- decimals)))))
            (decimals + 1)%Z
      else Ok (num, expression)
  | EmptyString => Ok (num, expression)
  end.

(** [while (index < expression.size() && isalnum(expression[index]))
    { name += expression[index]; index++; }] *)
Fixpoint read_name (expression : string) (name : string) : string * string :=
  match expression with
  | String c rest =>
      if isalnum c then read_name rest (name ++ String c "") else (name, expression)
  | EmptyString => (name, expression)
  end.

Definition GetNextToken (expression : string) : outcome (Token * string) :=
  match skip_space expression with
  | EmptyString => Ok (end_token, "")
  | String c rest as expression1 =>
      if isdigit c || Ascii.eqb c "." then
        match read_number expression1 0%float (-1)%Z with
        | Ok (num, expression2) => Ok (number_token num, expression2)
        | Throw e => Throw e
        | Undefined => Undefined
        | OutOfFuel => OutOfFuel
        end
      else if isalpha c then
        let '(name, expression2) := read_name expression1 "" in
        match skip_space expression2 with
        | String "=" expression3 => Ok (assignment_token name, expression3)
        | expression3 =>
            if functions_count name then Ok (function_token name, expression3)
            else Ok (variable_token name, expression3)
        end
      else if strchr "+-*/^=()" c then
        Ok (mkToken (if Ascii.eqb c "(" || Ascii.eqb c ")" then PARENTHESIS else OPERATOR)
              0 c "", rest)
      else Throw (UnexpectedCharacter c)
  end.

(** ** Operator and function semantics *)

Definition GetOperatorResult (op : ascii) (first second : float) : outcome float :=
  if Ascii.eqb op "+" then Ok (PrimFloat.add first second)
  else if Ascii.eqb op "-" then Ok (PrimFloat.sub first second)
  else if Ascii.eqb op "*" then Ok (PrimFloat.mul first second)
  else if Ascii.eqb op "/" then
    if PrimFloat.eqb second (int_to_double 0) then Throw DivisionByZero
    else Ok (PrimFloat.div first second)
  else if Ascii.eqb op "^" then Ok (pow m first second)
  else Throw UnknownOperator.

Definition GetFunctionResult (func : string) (arg : float) : outcome float :=
  if String.eqb func "sin" then Ok (sin m arg)
  else if String.eqb func "cos" then Ok (cos m arg)
  else if String.eqb func "tan" then Ok (tan m arg)
  else if String.eqb func "log" then Ok (log m arg)
  else if String.eqb func "sqrt" then Ok (sqrt m arg)
  else if String.eqb func "exp" then Ok (exp m arg)
  else Throw (UnknownFunction func).

(** ** Postfix evaluator: [EvaluatePostfix] *)

(** The [for] loop over [postfix] with the operand stack, then
    [return stack.top()]. *)
Fixpoint EvaluatePostfix_loop (postfix : list Token) (stack : list float) : M float :=
  match postfix with
  | [] => lift (stack_top stack)
  | token :: postfix' =>
      match type token with
      | NUMBER => EvaluatePostfix_loop postfix' (value token :: stack)
      | VARIABLE =>
          found <- map_contains (func token) ;;
          if found : bool then
            v <- map_index (func token) ;;
            EvaluatePostfix_loop postfix' (v :: stack)
          else lift (Throw (UndefinedVariable (func token)))
      | OPERATOR =>
          top <- lift (stack_top stack) ;;
          stack1 <- lift (stack_pop stack) ;;
          bottom <- lift (stack_top stack1) ;;
          stack2 <- lift (stack_pop stack1) ;;
          r <- lift (GetOperatorResult (op token) bottom top) ;;
          EvaluatePostfix_loop postfix' (r :: stack2)
      | FUNCTION =>
          arg <- lift (stack_top stack) ;;
          stack1 <- lift (stack_pop stack) ;;
          r <- lift (GetFunctionResult (func token) arg) ;;
          EvaluatePostfix_loop postfix' (r :: stack1)
      | ASSIGNMENT | PARENTHESIS | END => EvaluatePostfix_loop postfix' stack
      end
  end.

Definition EvaluatePostfix (postfix : list Token) : M float :=
  EvaluatePostfix_loop postfix [].

(** ** Shunting-yard converter: [InfixToPostfix] *)

(** Lines 268-274: [while (!stack.empty() && GetPrecedence(stack.top().op)
    >= GetPrecedence(token.op)) { result.push_back(stack.top()); stack.pop(); }] *)
Fixpoint pop_higher (c : ascii) (stack result : list Token) : list Token * list Token :=
  match stack with
  | top :: stack' =>
      if (GetPrecedence (op top) >=? GetPrecedence c)%Z
      then pop_higher c stack' (result ++ [top])
      else (stack, result)
  | [] => (stack, result)
  end.

(** Lines 286-292: [while (!stack.empty() && stack.top().op != '(') ...] *)
Fixpoint pop_to_open (stack result : list Token) : list Token * list Token :=
  match stack with
  | top :: stack' =>
      if negb (Ascii.eqb (op top) "(")
      then pop_to_open stack' (result ++ [top])
      else (stack, result)
  | [] => (stack, result)
  end.

(** Lines 309-314: [while (!stack.empty()) { result.push_back(stack.top()); stack.pop(); }] *)
Fixpoint drain (stack result : list Token) : list Token :=
  match stack with
  | top :: stack' => drain stack' (result ++ [top])
  | [] => result
  end.

(** One turn of the [while (index < expression.size())] loop of
    [InfixToPostfix], from the state (rest of the input, operator stack,
    output); once the input is used up, the stack is drained.  [loop] is
    the next turn, [eval] is [EvaluateExpression], which the [ASSIGNMENT]
    branch calls on [expression.substr(index)]. *)
Definition InfixToPostfix_body
    (loop : string -> list Token -> list Token -> M (list Token))
    (eval : string -> M float)
    (expression : string) (stack result : list Token) : M (list Token) :=
  match expression with
  | EmptyString => ret (drain stack result)
  | String _ _ =>
      next <- lift (GetNextToken expression) ;;
      let '(token, rest) := next in
      match type token with
      | NUMBER | VARIABLE | FUNCTION => loop rest stack (result ++ [token])
      | OPERATOR =>
          let '(stack1, result1) := pop_higher (op token) stack result in
          loop rest (token :: stack1) result1
      | PARENTHESIS =>
          if Ascii.eqb (op token) "(" then loop rest (token :: stack) result
          else if Ascii.eqb (op token) ")" then
            let '(stack1, result1) := pop_to_open stack result in
            stack2 <- lift (stack_pop stack1) ;;
            loop rest stack2 result1
          else loop rest stack result
      | ASSIGNMENT =>
          let varName := func token in
          value <- eval rest ;;
          _ <- map_assign varName value ;;
          ret [number_token value]
      | END => loop rest stack result
      end
  end.

(** The loop and the recursive call, both by recursion on [fuel];
    [2 * length expression + 2] is always enough (see
    [EvaluateExpression_fuel_enough]). *)
Fixpoint InfixToPostfix_fuel (fuel : nat) {struct fuel}
  : string -> list Token -> list Token -> M (list Token) :=
  match fuel with
  | O => fun _ _ _ => lift OutOfFuel
  | S fuel' =>
      InfixToPostfix_body (InfixToPostfix_fuel fuel') (EvaluateExpression_fuel fuel')
  end
with EvaluateExpression_fuel (fuel : nat) {struct fuel} : string -> M float :=
  match fuel with
  | O => fun _ => lift OutOfFuel
  | S fuel' =>
      fun expression =>
        postfix <- InfixToPostfix_fuel fuel' expression [] [] ;;
        EvaluatePostfix postfix
  end.

Definition InfixToPostfix_from (expression : string) (stack result : list Token)
  : M (list Token) :=
  InfixToPostfix_fuel (2 * String.length expression + 1) expression stack result.

Definition InfixToPostfix (expression : string) : M (list Token) :=
  InfixToPostfix_from expression [] [].

Definition EvaluateExpression (expression : string) : M float :=
  EvaluateExpression_fuel (2 * String.length expression + 2) expression.

End Calculator.

(** ** Vocabulary of the properties *)

(** A run wrote the store only if it ended well, with a result in [good]. *)
Definition wrote_only_on_success {A} (variables : store) (r : outcome A * store)
    (good : A -> Prop) : Prop :=
  fst r <> OutOfFuel /\
  (snd r = variables \/ exists a, fst r = Ok a /\ good a).

Definition single_number (postfix : list Token) : Prop :=
  exists v, postfix = [number_token v].

(** Operand-stack discipline of a postfix sequence, from a stack of
    [depth] values: every operator finds two values, every function one,
    and exactly one value is left at the end. *)
Fixpoint operands_ok (postfix : list Token) (depth : nat) : bool :=
  match postfix with
  | [] => Nat.eqb depth 1
  | token :: postfix' =>
      match type token with
      | NUMBER | VARIABLE => operands_ok postfix' (S depth)
      | OPERATOR => Nat.leb 2 depth && operands_ok postfix' (depth - 1)
      | FUNCTION => Nat.leb 1 depth && operands_ok postfix' depth
      | ASSIGNMENT | PARENTHESIS | END => operands_ok postfix' depth
      end
  end.

Definition well_formed (postfix : list Token) : bool := operands_ok postfix 0.

(** A run that stayed inside the contracts of the containers: it
    returned or threw. *)
Definition defined {A} (o : outcome A) : Prop :=
  match o with
  | Ok _ | Throw _ => True
  | Undefined | OutOfFuel => False
  end.

(** Integer literals: a non-empty run of digits, and the value the
    repeated [num * 10 + digit] gives it. *)
Fixpoint all_digits (s : string) : bool :=
  match s with
  | EmptyString => true
  | String c s' => isdigit c && all_digits s'
  end.

Definition integer_literal (s : string) : bool :=
  match s with
  | EmptyString => false
  | String _ _ => all_digits s
  end.

Fixpoint accumulate (num : float) (s : string) : float :=
  match s with
  | EmptyString => num
  | String c s' =>
      accumulate
        (PrimFloat.add (PrimFloat.mul num (int_to_double 10)) (int_to_double (digit_of c))) s'
  end.

Definition integer_value (s : string) : float := accumulate 0%float s.

(** The next character would extend a numeric literal. *)
Definition number_follows (rest : string) : bool :=
  match rest with
  | EmptyString => false
  | String c _ => isdigit c || Ascii.eqb c "."
  end.

(** The five binary operators of the precedence table. *)
Definition binary_operator (c : ascii) : bool :=
  existsb (Ascii.eqb c) ["+"; "-"; "*"; "/"; "^"]%char.

(** Identifiers: a letter, then letters and digits. *)
Fixpoint all_alnum (s : string) : bool :=
  match s with
  | EmptyString => true
  | String c s' => isalnum c && all_alnum s'
  end.

Definition identifier (s : string) : bool :=
  match s with
  | EmptyString => false
  | String c s' => isalpha c && all_alnum s'
  end.

(** The token [stack] holds no ['(']. *)
Definition no_open (stack : list Token) : bool :=
  forallb (fun token => negb (Ascii.eqb (op token) "(")) stack.

(** ** The rest of the program: [Token::GetPrint] and [main] *)

(** [Token::GetPrint].  [std::to_string(double)] is the parameter
    [to_string]; [std::string{op}] is the one-character string. *)
Definition GetPrint (to_string : float -> string) (token : Token) : string :=
  match type token with
  | NUMBER => to_string (value token)
  | OPERATOR => String (op token) ""
  | FUNCTION | VARIABLE | ASSIGNMENT => func token
  | PARENTHESIS => String (op token) ""
  | END => ""
  end.

(** What [main] sends to [std::cout] and [std::cerr], in program order.
    A [double] streamed to [std::cout] is kept as the value. *)
Inductive output : Type :=
| cout (text : string)
| cout_double (d : float)
| cerr (text : string).

(** How far [main] got on the lines it was given: waiting in
    [std::getline] for the next one, returned after ["exit"], or left with
    an outcome of [EvaluateExpression] that [catch] does not handle. *)
Inductive ending : Type :=
| AtPrompt (variables : store)
| Returned (variables : store)
| Lost (o : outcome float).

(** [std::endl] *)
Definition endl : string := String "010" "".

Section Session.

Variable m : libm.

(** The [while (true)] loop of [main] on the lines that the successive
    calls of [std::getline] return. *)
Fixpoint main_loop (inputs : list string) (variables : store) : list output * ending :=
  match inputs with
  | [] => ([cout "> "], AtPrompt variables)
  | input :: inputs' =>
      if String.eqb input "exit" then ([cout "> "], Returned variables)
      else
        match EvaluateExpression m input variables with
        | (Ok result, variables') =>
            let '(out, e) := main_loop inputs' variables' in
            (cout "> " :: cout "Result : " :: cout_double result :: cout endl :: out, e)
        | (Throw (runtime_error what), variables') =>
            let '(out, e) := main_loop inputs' variables' in
            (cout "> " :: cerr "Error: " :: cerr what :: cerr endl :: out, e)
        | (o, _) => ([cout "> "], Lost o)
        end
  end.

Definition main (inputs : list string) : list output * ending :=
  let '(out, e) := main_loop inputs ∅ in
  (cout ("Welcome in the scientific calculator." ++ endl) :: cout endl ::
   cout ("Enter an expression to calculate it or 'exit' to quit." ++ endl) :: cout endl ::
   out, e).

End Session.

(** ** Vocabulary of the further properties *)

(** [rest] is what is left of [expression] from some index on. *)
Definition is_suffix (rest expression : string) : Prop :=
  exists consumed, expression = (consumed ++ rest)%string.

Fixpoint all_space (s : string) : bool :=
  match s with
  | EmptyString => true
  | String c s' => isspace c && all_space s'
  end.

(** The input holds a ['=']. *)
Fixpoint has_equals (s : string) : bool :=
  match s with
  | EmptyString => false
  | String c s' => Ascii.eqb c "=" || has_equals s'
  end.

(** The next character would extend an identifier. *)
Definition alnum_follows (rest : string) : bool :=
  match rest with
  | EmptyString => false
  | String c _ => isalnum c
  end.

(** The next character is ['=']. *)
Definition equals_follows (rest : string) : bool :=
  match rest with
  | EmptyString => false
  | String c _ => Ascii.eqb c "="
  end.

(** The tokens [GetNextToken] can return. *)
Definition lexed_token (token : Token) : bool :=
  match type token with
  | NUMBER => Ascii.eqb (op token) Ascii.zero && String.eqb (func token) ""
  | OPERATOR => strchr "+-*/^=" (op token) && String.eqb (func token) ""
  | PARENTHESIS =>
      (Ascii.eqb (op token) "(" || Ascii.eqb (op token) ")") && String.eqb (func token) ""
  | FUNCTION => functions_count (func token) && Ascii.eqb (op token) Ascii.zero
  | VARIABLE =>
      identifier (func token) && negb (functions_count (func token))
      && Ascii.eqb (op token) Ascii.zero
  | ASSIGNMENT => identifier (func token) && Ascii.eqb (op token) Ascii.zero
  | END => true
  end.

(** The tokens the converter puts on its operator stack, and those it
    sends to the output. *)
Definition stacked_token (token : Token) : bool :=
  match type token with
  | OPERATOR => true
  | PARENTHESIS => Ascii.eqb (op token) "("
  | _ => false
  end.

Definition postfix_token (token : Token) : bool :=
  match type token with
  | NUMBER | VARIABLE | OPERATOR => true
  | FUNCTION => functions_count (func token)
  | PARENTHESIS => Ascii.eqb (op token) "("
  | ASSIGNMENT | END => false
  end.

(** The errors [EvaluateExpression] can throw. *)
Definition calculator_error (e : exception) : Prop :=
  (exists c, e = UnexpectedCharacter c) \/
  e = DivisionByZero \/
  e = UnknownOperator \/
  (exists name, e = UndefinedVariable name).

(** The token of an identifier that no ['='] follows. *)
Definition identifier_token (name : string) : Token :=
  if functions_count name then function_token name else variable_token name.

(** ** Vocabulary of the grouping and of the look-up of variables *)

(** [first o second], once both operands are there. *)
Definition apply_operator (m : libm) (o : ascii) (first second : outcome float)
  : outcome float :=
  match first with
  | Ok r1 =>
      match second with
      | Ok r2 => GetOperatorResult m o r1 r2
      | failed => failed
      end
  | failed => failed
  end.

(** The grammar of the operator expressions over integer literals, by
    precedence level [q]:

      E(q) ::= E(q) o E(q+1)     for a binary operator [o] of precedence [q]
             | E(q+1)
             | literal | ( E(1) )

    so that operators of higher precedence bind tighter and operators of
    one precedence group to the left.  [parses m q s p v]: [s] is an
    expression of level [q], [p] is the postfix order of its tree and [v]
    the value of its tree. *)
Inductive parses (m : libm) : Z -> string -> list Token -> outcome float -> Prop :=
| parses_literal (q : Z) (a : string) :
    integer_literal a = true ->
    parses m q a [number_token (integer_value a)] (Ok (integer_value a))
| parses_parenthesis (q : Z) (s : string) (p : list Token) (v : outcome float) :
    parses m 1 s p v ->
    parses m q (String "(" (s ++ ")")) p v
| parses_binary (s1 : string) (p1 : list Token) (v1 : outcome float) (o : ascii)
    (s2 : string) (p2 : list Token) (v2 : outcome float) :
    binary_operator o = true ->
    parses m (GetPrecedence o) s1 p1 v1 ->
    parses m (GetPrecedence o + 1) s2 p2 v2 ->
    parses m (GetPrecedence o) (s1 ++ String o s2) (p1 ++ p2 ++ [operator_token o])
      (apply_operator m o v1 v2)
| parses_higher (q : Z) (s : string) (p : list Token) (v : outcome float) :
    parses m (q + 1) s p v ->
    parses m q s p v.

(** The operator on top of the stack, if any, has a precedence below [q]. *)
Definition stack_below (q : Z) (stack : list Token) : Prop :=
  match stack with
  | [] => True
  | top :: _ => (GetPrecedence (op top) < q)%Z
  end.

Section Units.

Variable m : libm.

(** The converter treats [s] as one operand of postfix order [p]: from a
    stack whose top is below [q], [s] adds [p] to the output and leaves
    the stack as it was, whether the input ends there, or an operator of
    precedence at most [q] follows, or a [')']. *)
Definition converts_as_unit (q : Z) (s : string) (p : list Token) : Prop :=
  forall stack result variables,
    stack_below q stack ->
    InfixToPostfix_from m s stack result variables =
      (Ok ((result ++ p) ++ stack), variables) /\
    (forall o rest,
        binary_operator o = true -> (GetPrecedence o <= q)%Z ->
        InfixToPostfix_from m (s ++ String o rest) stack result variables =
        InfixToPostfix_from m rest
          (operator_token o :: fst (pop_higher o stack (result ++ p)))
          (snd (pop_higher o stack (result ++ p))) variables) /\
    (forall rest,
        InfixToPostfix_from m (s ++ String ")" rest) stack result variables =
        (stack2 <- lift (stack_pop (fst (pop_to_open stack (result ++ p)))) ;;
         InfixToPostfix_from m rest stack2 (snd (pop_to_open stack (result ++ p)))) variables).

(** The [for] loop of [EvaluatePostfix] without the final [stack.top()]:
    the operand stack that [postfix] leaves. *)
Fixpoint EvaluatePostfix_stack (postfix : list Token) (stack : list float) : M (list float) :=
  match postfix with
  | [] => ret stack
  | token :: postfix' =>
      match type token with
      | NUMBER => EvaluatePostfix_stack postfix' (value token :: stack)
      | VARIABLE =>
          found <- map_contains (func token) ;;
          if found : bool then
            v <- map_index (func token) ;;
            EvaluatePostfix_stack postfix' (v :: stack)
          else lift (Throw (UndefinedVariable (func token)))
      | OPERATOR =>
          top <- lift (stack_top stack) ;;
          stack1 <- lift (stack_pop stack) ;;
          bottom <- lift (stack_top stack1) ;;
          stack2 <- lift (stack_pop stack1) ;;
          r <- lift (GetOperatorResult m (op token) bottom top) ;;
          EvaluatePostfix_stack postfix' (r :: stack2)
      | FUNCTION =>
          arg <- lift (stack_top stack) ;;
          stack1 <- lift (stack_pop stack) ;;
          r <- lift (GetFunctionResult m (func token) arg) ;;
          EvaluatePostfix_stack postfix' (r :: stack1)
      | ASSIGNMENT | PARENTHESIS | END => EvaluatePostfix_stack postfix' stack
      end
  end.

End Units.

(** Every field of a token [GetNextToken] returns: it is one of the
    brace initialisers of the source. *)
Definition lexed_shape (token : Token) : Prop :=
  token = end_token \/
  (exists v, token = number_token v) \/
  (exists c, strchr "+-*/^=" c = true /\ token = operator_token c) \/
  (exists c, (c = "("%char \/ c = ")"%char) /\ token = parenthesis_token c) \/
  (exists name, functions_count name = true /\ token = function_token name) \/
  (exists name, identifier name = true /\ functions_count name = false /\
                token = variable_token name) \/
  (exists name, identifier name = true /\ token = assignment_token name).

(** * Properties *)

Section CalculatorFacts.

Variable m : libm.

(** ** The lexer always moves forward *)

Lemma skip_space_length (expression : string) :
  String.length (skip_space expression) <= String.length expression.
Proof.
  induction expression as [|c rest IH]; simpl; [lia|].
  destruct (isspace c); simpl; lia.
Qed.

Lemma read_number_length (expression : string) :
  forall num decimals n rest,
    read_number m expression num decimals = Ok (n, rest) ->
    String.length rest <= String.length expression.
Proof.
  induction expression as [|c e IH]; simpl; intros num decimals n rest H.
  - inversion H; subst; simpl; lia.
  - destruct (isdigit c || Ascii.eqb c ".").
    + destruct (Ascii.eqb c ".").
      * apply IH in H; lia.
      * destruct (decimals =? -1)%Z; [apply IH in H; lia|].
        destruct (decimals =? INT_MAX)%Z; [discriminate|apply IH in H; lia].
    + inversion H; subst; simpl; lia.
Qed.

Lemma read_number_fuel (expression : string) :
  forall num decimals, read_number m expression num decimals <> OutOfFuel.
Proof.
  induction expression as [|c e IH]; simpl; intros num decimals; [discriminate|].
  destruct (isdigit c || Ascii.eqb c "."); [|discriminate].
  destruct (Ascii.eqb c "."); [apply IH|].
  destruct (decimals =? -1)%Z; [apply IH|].
  destruct (decimals =? INT_MAX)%Z; [discriminate|apply IH].
Qed.

Lemma read_name_length (expression : string) :
  forall name n rest,
    read_name expression name = (n, rest) ->
    String.length rest <= String.length expression.
Proof.
  induction expression as [|c e IH]; simpl; intros name n rest H.
  - inversion H; subst; simpl; lia.
  - destruct (isalnum c).
    + apply IH in H; lia.
    + inversion H; subst; simpl; lia.
Qed.

Lemma GetNextToken_fuel (expression : string) :
  GetNextToken m expression <> OutOfFuel.
Proof.
  unfold GetNextToken.
  destruct (skip_space expression) as [|c rest]; [discriminate|].
  destruct (isdigit c || Ascii.eqb c ".").
  - pose proof (read_number_fuel (String c rest) 0%float (-1)%Z) as H.
    destruct (read_number m (String c rest) 0 (-1)) as [[num e2]| | |];
      solve [discriminate | congruence].
  - destruct (isalpha c).
    + destruct (read_name (String c rest) "") as [name e2].
      destruct (skip_space e2) as [|c3 e3]; [destruct (functions_count name); discriminate|].
      destruct (Ascii.eqb c3 "=") eqn:E.
      * apply Ascii.eqb_eq in E; subst; discriminate.
      * destruct c3 as [[] [] [] [] [] [] [] []];
          try discriminate E; destruct (functions_count name); discriminate.
    + destruct (strchr "+-*/^=()" c); discriminate.
Qed.

Lemma GetNextToken_shorter (expression : string) (token : Token) (rest : string) :
  expression <> "" ->
  GetNextToken m expression = Ok (token, rest) ->
  String.length rest < String.length expression.
Proof.
  intros Hne. unfold GetNextToken.
  pose proof (skip_space_length expression) as Hs.
  destruct (skip_space expression) as [|c e1] eqn:E1.
  - intros H; inversion H; subst. destruct expression; [congruence|simpl; lia].
  - simpl in Hs. destruct (isdigit c || Ascii.eqb c ".") eqn:Ed.
    + destruct (read_number m (String c e1) 0 (-1)) as [[num e2]| | |] eqn:En;
        try discriminate.
      intros H; inversion H; subst.
      simpl in En. rewrite Ed in En.
      destruct (Ascii.eqb c "."); simpl in En; apply read_number_length in En; lia.
    + destruct (isalpha c) eqn:Ea.
      * destruct (read_name (String c e1) "") as [name e2] eqn:Er.
        simpl in Er. unfold isalnum in Er. rewrite Ea in Er. simpl in Er.
        apply read_name_length in Er.
        pose proof (skip_space_length e2) as Hs2.
        destruct (skip_space e2) as [|c3 e3].
        { destruct (functions_count name); intros H; inversion H; subst; simpl; lia. }
        simpl in Hs2.
        destruct (Ascii.eqb c3 "=") eqn:E.
        -- apply Ascii.eqb_eq in E; subst. intros H; inversion H; subst. lia.
        -- assert (Hrest : String.length rest = S (String.length e3) ->
                           String.length rest < String.length expression) by lia.
           destruct c3 as [[] [] [] [] [] [] [] []]; try discriminate E;
             destruct (functions_count name); intros H; inversion H; subst;
             apply Hrest; reflexivity.
      * destruct (strchr "+-*/^=()" c); [|discriminate].
        intros H; inversion H; subst. lia.
Qed.

(** ** The evaluator leaves the store alone and needs no fuel *)

Lemma GetOperatorResult_fuel (c : ascii) (first second : float) :
  GetOperatorResult m c first second <> OutOfFuel.
Proof.
  unfold GetOperatorResult.
  repeat match goal with |- context [if ?b then _ else _] => destruct b end;
    discriminate.
Qed.

Lemma GetFunctionResult_fuel (name : string) (arg : float) :
  GetFunctionResult m name arg <> OutOfFuel.
Proof.
  unfold GetFunctionResult.
  repeat match goal with |- context [if ?b then _ else _] => destruct b end;
    discriminate.
Qed.

Lemma map_contains_spec (name : string) (variables : store) :
  map_contains name variables =
  (Ok (match variables !! name with Some _ => true | None => false end), variables).
Proof.
  unfold map_contains. destruct (variables !! name) eqn:E.
  - rewrite bool_decide_eq_true_2; [reflexivity|eauto].
  - rewrite bool_decide_eq_false_2; [reflexivity|]. intros [v Hv]; discriminate.
Qed.

Lemma EvaluatePostfix_loop_frame (postfix : list Token) :
  forall stack variables,
    snd (EvaluatePostfix_loop m postfix stack variables) = variables /\
    fst (EvaluatePostfix_loop m postfix stack variables) <> OutOfFuel.
Proof.
  induction postfix as [|token postfix IH]; intros stack variables; simpl.
  - unfold lift; simpl. split; [reflexivity|]. destruct stack; discriminate.
  - destruct (type token); try apply IH.
    + (* OPERATOR *)
      unfold bind, lift.
      destruct stack as [|top [|bottom stack]]; simpl; try (split; [reflexivity|discriminate]).
      pose proof (GetOperatorResult_fuel (op token) bottom top) as Hf.
      destruct (GetOperatorResult m (op token) bottom top); simpl;
        try (split; [reflexivity|discriminate]); [apply IH|congruence].
    + (* FUNCTION *)
      unfold bind, lift.
      destruct stack as [|arg stack]; simpl; try (split; [reflexivity|discriminate]).
      pose proof (GetFunctionResult_fuel (func token) arg) as Hf.
      destruct (GetFunctionResult m (func token) arg); simpl;
        try (split; [reflexivity|discriminate]); [apply IH|congruence].
    + (* VARIABLE *)
      unfold bind. rewrite map_contains_spec. unfold map_index, lift.
      destruct (variables !! func token) eqn:E; simpl; rewrite ?E; simpl.
      * apply IH.
      * split; [reflexivity|discriminate].
Qed.

Lemma EvaluatePostfix_store (postfix : list Token) (variables : store) :
  snd (EvaluatePostfix m postfix variables) = variables.
Proof. apply EvaluatePostfix_loop_frame. Qed.

Lemma EvaluatePostfix_number (v : float) (variables : store) :
  EvaluatePostfix m [number_token v] variables = (Ok v, variables).
Proof. reflexivity. Qed.

(** ** Fuel: [2 * length + 2] is enough, and more changes nothing *)

Lemma InfixToPostfix_body_ext loop1 loop2 eval1 eval2 (expression : string) :
  (forall rest stack result variables,
      String.length rest < String.length expression ->
      loop1 rest stack result variables = loop2 rest stack result variables) ->
  (forall rest variables,
      String.length rest < String.length expression ->
      eval1 rest variables = eval2 rest variables) ->
  forall stack result variables,
    InfixToPostfix_body m loop1 eval1 expression stack result variables =
    InfixToPostfix_body m loop2 eval2 expression stack result variables.
Proof.
  intros Hloop Heval stack result variables.
  destruct expression as [|c e]; [reflexivity|].
  unfold InfixToPostfix_body, bind, lift.
  destruct (GetNextToken m (String c e)) as [[token rest]| | |] eqn:E; try reflexivity.
  apply GetNextToken_shorter in E; [|discriminate].
  destruct (type token); auto.
  - destruct (pop_higher (op token) stack result); auto.
  - rewrite Heval by assumption. reflexivity.
  - destruct (Ascii.eqb (op token) "("); auto.
    destruct (Ascii.eqb (op token) ")"); auto.
    destruct (pop_to_open stack result) as [stack1 result1].
    destruct (stack_pop stack1); auto.
Qed.

Lemma fuel_enough_aux (n : nat) :
  forall expression, String.length expression < n ->
    (forall fuel stack result variables,
        2 * String.length expression + 1 <= fuel ->
        InfixToPostfix_fuel m fuel expression stack result variables =
        InfixToPostfix_from m expression stack result variables) /\
    (forall fuel variables,
        2 * String.length expression + 2 <= fuel ->
        EvaluateExpression_fuel m fuel expression variables =
        EvaluateExpression m expression variables).
Proof.
  induction n as [|n IH]; intros expression Hlen; [lia|].
  assert (Hloop : forall fuel stack result variables,
             2 * String.length expression + 1 <= fuel ->
             InfixToPostfix_fuel m fuel expression stack result variables =
             InfixToPostfix_from m expression stack result variables).
  { intros fuel stack result variables Hfuel.
    unfold InfixToPostfix_from.
    replace (2 * String.length expression + 1) with (S (2 * String.length expression)) by lia.
    destruct fuel as [|fuel]; [lia|]. simpl InfixToPostfix_fuel.
    apply InfixToPostfix_body_ext.
    - intros rest stack' result' variables' Hrest.
      destruct (IH rest ltac:(lia)) as [H1 _].
      rewrite H1 by lia. symmetry. apply H1. lia.
    - intros rest variables' Hrest.
      destruct (IH rest ltac:(lia)) as [_ H2].
      rewrite H2 by lia. symmetry. apply H2. lia. }
  split; [exact Hloop|].
  intros fuel variables Hfuel. unfold EvaluateExpression.
  replace (2 * String.length expression + 2) with (S (2 * String.length expression + 1)) by lia.
  destruct fuel as [|fuel]; [lia|]. simpl EvaluateExpression_fuel.
  unfold bind. rewrite !Hloop by lia. reflexivity.
Qed.

Lemma InfixToPostfix_fuel_enough (fuel : nat) (expression : string) stack result variables :
  2 * String.length expression + 1 <= fuel ->
  InfixToPostfix_fuel m fuel expression stack result variables =
  InfixToPostfix_from m expression stack result variables.
Proof.
  intros H.
  destruct (fuel_enough_aux (S (String.length expression)) expression ltac:(lia)) as [H1 _].
  apply H1, H.
Qed.

Lemma EvaluateExpression_fuel_enough (fuel : nat) (expression : string) variables :
  2 * String.length expression + 2 <= fuel ->
  EvaluateExpression_fuel m fuel expression variables =
  EvaluateExpression m expression variables.
Proof.
  intros H.
  destruct (fuel_enough_aux (S (String.length expression)) expression ltac:(lia)) as [_ H2].
  apply H2, H.
Qed.

(** The equations of the source: the loop of [InfixToPostfix] and the
    body of [EvaluateExpression], free of fuel. *)
Lemma InfixToPostfix_from_eq (expression : string) stack result variables :
  InfixToPostfix_from m expression stack result variables =
  InfixToPostfix_body m (InfixToPostfix_from m) (EvaluateExpression m)
    expression stack result variables.
Proof.
  unfold InfixToPostfix_from at 1.
  replace (2 * String.length expression + 1) with (S (2 * String.length expression)) by lia.
  simpl InfixToPostfix_fuel.
  apply InfixToPostfix_body_ext.
  - intros rest stack' result' variables' Hrest. apply InfixToPostfix_fuel_enough. lia.
  - intros rest variables' Hrest. apply EvaluateExpression_fuel_enough. lia.
Qed.

Lemma EvaluateExpression_eq (expression : string) variables :
  EvaluateExpression m expression variables =
  (postfix <- InfixToPostfix m expression ;; EvaluatePostfix m postfix) variables.
Proof.
  unfold EvaluateExpression.
  replace (2 * String.length expression + 2) with (S (2 * String.length expression + 1)) by lia.
  reflexivity.
Qed.

(** ** Every run ends, and a run that wrote the store ends well

    Once an assignment has written the store, the converter returns the
    one-token sequence [Number value], on which the evaluator cannot fail;
    so does every enclosing call. *)

Lemma run_invariant (n : nat) :
  forall expression, String.length expression < n ->
    (forall stack result variables,
        wrote_only_on_success variables
          (InfixToPostfix_from m expression stack result variables) single_number) /\
    (forall variables,
        wrote_only_on_success variables
          (EvaluateExpression m expression variables) (fun _ => True)).
Proof.
  induction n as [|n IH]; intros expression Hlen; [lia|].
  assert (Hloop : forall stack result variables,
             wrote_only_on_success variables
               (InfixToPostfix_from m expression stack result variables) single_number).
  { intros stack result variables. rewrite InfixToPostfix_from_eq.
    destruct expression as [|c e].
    { split; simpl; [discriminate|left; reflexivity]. }
    unfold InfixToPostfix_body, bind, lift.
    pose proof (GetNextToken_fuel (String c e)) as Hfuel.
    destruct (GetNextToken m (String c e)) as [[token rest]| | |] eqn:E;
      try (split; simpl; [discriminate|left; reflexivity]); [|congruence].
    apply GetNextToken_shorter in E; [|discriminate].
    destruct (IH rest ltac:(lia)) as [IHloop IHeval].
    destruct (type token); try apply IHloop.
    - destruct (pop_higher (op token) stack result). apply IHloop.
    - (* ASSIGNMENT *)
      specialize (IHeval variables).
      destruct (EvaluateExpression m rest variables) as [[v| | |] variables'];
        destruct IHeval as [Hf Hw]; simpl in Hf, Hw.
      + split; simpl; [discriminate|]. right. eexists. split; [reflexivity|].
        eexists; reflexivity.
      + split; simpl; [discriminate|]. destruct Hw as [Hw|[a [Ha _]]]; [auto|discriminate].
      + split; simpl; [discriminate|]. destruct Hw as [Hw|[a [Ha _]]]; [auto|discriminate].
      + congruence.
    - destruct (Ascii.eqb (op token) "("); [apply IHloop|].
      destruct (Ascii.eqb (op token) ")"); [|apply IHloop].
      destruct (pop_to_open stack result) as [stack1 result1].
      destruct stack1 as [|top stack2]; simpl; [|apply IHloop].
      split; simpl; [discriminate|left; reflexivity]. }
  split; [exact Hloop|].
  intros variables. rewrite EvaluateExpression_eq. unfold bind, InfixToPostfix.
  specialize (Hloop [] [] variables).
  destruct (InfixToPostfix_from m expression [] [] variables) as [[postfix| | |] variables'];
    destruct Hloop as [Hf Hw]; simpl in Hf, Hw.
  - destruct (EvaluatePostfix_loop_frame postfix [] variables') as [Hs Hn].
    fold (EvaluatePostfix m postfix) in Hs, Hn.
    destruct Hw as [Hw|[a [Ha [v Hv]]]].
    + subst variables'. split; [exact Hn|left; exact Hs].
    + inversion Ha; subst. rewrite EvaluatePostfix_number.
      split; simpl; [discriminate|right; eauto].
  - split; simpl; [discriminate|]. destruct Hw as [Hw|[a [Ha _]]]; [auto|discriminate].
  - split; simpl; [discriminate|]. destruct Hw as [Hw|[a [Ha _]]]; [auto|discriminate].
  - congruence.
Qed.

Lemma EvaluateExpression_invariant (expression : string) (variables : store) :
  wrote_only_on_success variables (EvaluateExpression m expression variables) (fun _ => True).
Proof.
  destruct (run_invariant (S (String.length expression)) expression ltac:(lia)) as [_ H].
  apply H.
Qed.

Lemma InfixToPostfix_from_invariant (expression : string) stack result (variables : store) :
  wrote_only_on_success variables
    (InfixToPostfix_from m expression stack result variables) single_number.
Proof.
  destruct (run_invariant (S (String.length expression)) expression ltac:(lia)) as [H _].
  apply H.
Qed.

(** ** One turn of the evaluator's loop *)

Lemma EvaluatePostfix_loop_variable_found name v postfix stack (variables : store) :
  variables !! name = Some v ->
  EvaluatePostfix_loop m (variable_token name :: postfix) stack variables =
  EvaluatePostfix_loop m postfix (v :: stack) variables.
Proof.
  intros H. simpl. unfold bind. rewrite map_contains_spec.
  unfold map_index. simpl. rewrite !H. reflexivity.
Qed.

Lemma EvaluatePostfix_loop_variable_missing name postfix stack (variables : store) :
  variables !! name = None ->
  EvaluatePostfix_loop m (variable_token name :: postfix) stack variables =
  (Throw (UndefinedVariable name), variables).
Proof.
  intros H. simpl. unfold bind. rewrite map_contains_spec.
  simpl. rewrite !H. reflexivity.
Qed.

Lemma EvaluatePostfix_loop_number v postfix stack (variables : store) :
  EvaluatePostfix_loop m (number_token v :: postfix) stack variables =
  EvaluatePostfix_loop m postfix (v :: stack) variables.
Proof. reflexivity. Qed.

Lemma EvaluatePostfix_loop_operator c postfix top bottom stack (variables : store) :
  EvaluatePostfix_loop m (operator_token c :: postfix) (top :: bottom :: stack) variables =
  (r <- lift (GetOperatorResult m c bottom top) ;;
   EvaluatePostfix_loop m postfix (r :: stack)) variables.
Proof. reflexivity. Qed.

(** A sequence that mentions a variable the store lacks never yields a value. *)
Lemma EvaluatePostfix_loop_missing_no_value name (variables : store) :
  variables !! name = None ->
  forall postfix stack v,
    In (variable_token name) postfix ->
    fst (EvaluatePostfix_loop m postfix stack variables) <> Ok v.
Proof.
  intros Hnone postfix.
  induction postfix as [|token postfix IH]; intros stack v Hin; [destruct Hin|].
  destruct Hin as [->|Hin].
  - rewrite EvaluatePostfix_loop_variable_missing by assumption. discriminate.
  - simpl. unfold bind, lift. destruct (type token); try (apply IH; assumption).
    + destruct stack as [|top [|bottom stack]]; simpl; try discriminate.
      destruct (GetOperatorResult m (op token) bottom top); simpl; try discriminate.
      apply IH; assumption.
    + destruct stack as [|arg stack]; simpl; try discriminate.
      destruct (GetFunctionResult m (func token) arg); simpl; try discriminate.
      apply IH; assumption.
    + rewrite map_contains_spec. unfold map_index.
      destruct (variables !! func token) eqn:E; simpl; rewrite ?E; simpl; try discriminate.
      apply IH; assumption.
Qed.

(** A sequence that keeps the operand-stack discipline returns or throws. *)
Lemma EvaluatePostfix_loop_defined (postfix : list Token) :
  forall stack variables,
    operands_ok postfix (List.length stack) = true ->
    defined (fst (EvaluatePostfix_loop m postfix stack variables)).
Proof.
  induction postfix as [|token postfix IH]; intros stack variables Hok; simpl in *.
  - destruct stack as [|top stack]; [discriminate|exact I].
  - unfold bind, lift. destruct (type token); try (apply IH; assumption).
    + apply andb_prop in Hok as [Hd Hok].
      destruct stack as [|top [|bottom stack]]; simpl in *; try discriminate.
      destruct (GetOperatorResult m (op token) bottom top) eqn:E; simpl; try exact I.
      * apply IH. simpl. rewrite ?Nat.sub_0_r in Hok. exact Hok.
      * unfold GetOperatorResult in E.
        repeat match type of E with
               | (if ?b then _ else _) = _ => destruct b
               end; discriminate.
      * exfalso; eapply GetOperatorResult_fuel; eassumption.
    + apply andb_prop in Hok as [Hd Hok].
      destruct stack as [|arg stack]; simpl in *; try discriminate.
      destruct (GetFunctionResult m (func token) arg) eqn:E; simpl; try exact I.
      * apply IH. exact Hok.
      * unfold GetFunctionResult in E.
        repeat match type of E with
               | (if ?b then _ else _) = _ => destruct b
               end; discriminate.
      * exfalso; eapply GetFunctionResult_fuel; eassumption.
    + rewrite map_contains_spec. unfold map_index.
      destruct (variables !! func token) eqn:E; simpl; rewrite ?E; simpl; [|exact I].
      apply (IH (_ :: stack)); assumption.
Qed.

(** ** What the lexer reads *)

Lemma isdigit_class (c : ascii) :
  isdigit c = true ->
  isspace c = false /\ Ascii.eqb c "." = false /\ isalnum c = true.
Proof.
  intros H. unfold isalnum. rewrite H, orb_true_r.
  destruct (Ascii.eqb c ".") eqn:E.
  { apply Ascii.eqb_eq in E; subst; discriminate. }
  unfold isdigit in H. unfold isspace.
  apply andb_prop in H as [H1 H2]. apply N.leb_le in H1, H2.
  repeat split.
  apply orb_false_intro; [apply andb_false_intro2; apply N.leb_gt|apply N.eqb_neq]; lia.
Qed.

Lemma isalpha_class (c : ascii) :
  isalpha c = true ->
  isspace c = false /\ isdigit c = false /\ Ascii.eqb c "." = false /\ isalnum c = true.
Proof.
  intros H. unfold isalnum. rewrite H. unfold isdigit, isspace.
  destruct (Ascii.eqb c ".") eqn:E.
  { apply Ascii.eqb_eq in E; subst; discriminate. }
  unfold isalpha in H.
  assert ((65 <= code c)%N) as Hc.
  { apply orb_prop in H as [H|H]; apply andb_prop in H as [H1 H2];
      apply N.leb_le in H1; lia. }
  repeat split.
  - apply orb_false_intro; [apply andb_false_intro2; apply N.leb_gt|apply N.eqb_neq]; lia.
  - apply andb_false_intro2. apply N.leb_gt.
    apply orb_prop in H as [H|H]; apply andb_prop in H as [H1 H2];
      apply N.leb_le in H1; lia.
Qed.

Lemma binary_operator_cases (c : ascii) :
  binary_operator c = true ->
  c = "+"%char \/ c = "-"%char \/ c = "*"%char \/ c = "/"%char \/ c = "^"%char.
Proof.
  unfold binary_operator. simpl. rewrite orb_false_r.
  intros H. repeat (apply orb_prop in H as [H|H]); apply Ascii.eqb_eq in H; auto.
Qed.

Lemma read_number_integer (a rest : string) :
  all_digits a = true ->
  number_follows rest = false ->
  forall num, read_number m (a ++ rest) num (-1) = Ok (accumulate num a, rest).
Proof.
  intros Ha Hrest. induction a as [|c a IH]; intros num; simpl.
  - destruct rest as [|c rest]; [reflexivity|]. simpl in *. rewrite Hrest. reflexivity.
  - simpl in Ha. apply andb_prop in Ha as [Hc Ha].
    destruct (isdigit_class c Hc) as (_ & Hdot & _).
    rewrite Hc, Hdot. simpl. apply IH, Ha.
Qed.

Lemma GetNextToken_integer (a rest : string) :
  integer_literal a = true ->
  number_follows rest = false ->
  GetNextToken m (a ++ rest) = Ok (number_token (integer_value a), rest).
Proof.
  intros Ha Hrest. destruct a as [|c a]; [discriminate|].
  simpl in Ha. pose proof Ha as Hall. apply andb_prop in Ha as [Hc Ha].
  destruct (isdigit_class c Hc) as (Hsp & _ & _).
  unfold GetNextToken. simpl skip_space. rewrite Hsp, Hc. simpl orb. cbv iota.
  change (String c (a ++ rest)%string) with (String c a ++ rest)%string.
  rewrite read_number_integer by assumption. reflexivity.
Qed.

Lemma GetNextToken_operator (c : ascii) (rest : string) :
  binary_operator c = true ->
  GetNextToken m (String c rest) = Ok (operator_token c, rest).
Proof.
  intros H. apply binary_operator_cases in H.
  destruct H as [->|[->|[->|[->| ->]]]]; reflexivity.
Qed.

Lemma GetNextToken_equals (rest : string) :
  GetNextToken m (String "=" rest) = Ok (operator_token "="%char, rest).
Proof. reflexivity. Qed.

Lemma append_snoc (acc : string) (c : ascii) (a : string) :
  ((acc ++ String c "") ++ a)%string = (acc ++ String c a)%string.
Proof.
  induction acc as [|d acc IH]; [reflexivity|].
  change (String d ((acc ++ String c "") ++ a) = String d (acc ++ String c a))%string.
  f_equal. exact IH.
Qed.

Lemma append_empty (acc : string) : (acc ++ "")%string = acc.
Proof.
  induction acc as [|d acc IH]; [reflexivity|].
  change (String d (acc ++ "") = String d acc)%string.
  f_equal. exact IH.
Qed.

Lemma read_name_assigned (a rest : string) :
  all_alnum a = true ->
  forall acc, read_name (a ++ String "=" rest) acc = ((acc ++ a)%string, String "=" rest).
Proof.
  intros Ha. induction a as [|c a IH]; intros acc; simpl.
  - rewrite append_empty. reflexivity.
  - simpl in Ha. apply andb_prop in Ha as [Hc Ha].
    rewrite Hc, IH by assumption. rewrite append_snoc. reflexivity.
Qed.

Lemma GetNextToken_assignment (name rest : string) :
  identifier name = true ->
  GetNextToken m (name ++ String "=" rest) = Ok (assignment_token name, rest).
Proof.
  intros Hname. destruct name as [|c name]; [discriminate|].
  simpl in Hname. apply andb_prop in Hname as [Hc Hname].
  destruct (isalpha_class c Hc) as (Hsp & Hd & Hdot & Hal).
  unfold GetNextToken. simpl skip_space. rewrite Hsp, Hd, Hdot, Hc. simpl orb. cbv iota.
  simpl read_name. rewrite Hal.
  rewrite read_name_assigned by assumption. reflexivity.
Qed.

(** ** One turn of the converter's loop *)

Lemma drain_app (stack result : list Token) : drain stack result = result ++ stack.
Proof.
  revert result. induction stack as [|top stack IH]; intros result; simpl.
  - rewrite app_nil_r. reflexivity.
  - rewrite IH, <- app_assoc. reflexivity.
Qed.

Lemma InfixToPostfix_from_end stack result (variables : store) :
  InfixToPostfix_from m "" stack result variables = (Ok (result ++ stack), variables).
Proof. rewrite InfixToPostfix_from_eq. simpl. unfold ret. rewrite drain_app. reflexivity. Qed.

Lemma InfixToPostfix_from_number expression v rest stack result (variables : store) :
  expression <> "" ->
  GetNextToken m expression = Ok (number_token v, rest) ->
  InfixToPostfix_from m expression stack result variables =
  InfixToPostfix_from m rest stack (result ++ [number_token v]) variables.
Proof.
  intros Hne H. rewrite InfixToPostfix_from_eq.
  destruct expression; [congruence|].
  unfold InfixToPostfix_body, bind, lift. rewrite H. reflexivity.
Qed.

Lemma InfixToPostfix_from_operator expression c rest stack result (variables : store) :
  expression <> "" ->
  GetNextToken m expression = Ok (operator_token c, rest) ->
  InfixToPostfix_from m expression stack result variables =
  InfixToPostfix_from m rest
    (operator_token c :: fst (pop_higher c stack result))
    (snd (pop_higher c stack result)) variables.
Proof.
  intros Hne H. rewrite InfixToPostfix_from_eq.
  destruct expression; [congruence|].
  unfold InfixToPostfix_body, bind, lift. rewrite H. simpl.
  destruct (pop_higher c stack result). reflexivity.
Qed.

Lemma InfixToPostfix_from_close expression rest stack result (variables : store) :
  expression <> "" ->
  GetNextToken m expression = Ok (parenthesis_token ")"%char, rest) ->
  InfixToPostfix_from m expression stack result variables =
  (stack2 <- lift (stack_pop (fst (pop_to_open stack result))) ;;
   InfixToPostfix_from m rest stack2 (snd (pop_to_open stack result))) variables.
Proof.
  intros Hne H. rewrite InfixToPostfix_from_eq.
  destruct expression; [congruence|].
  unfold InfixToPostfix_body, bind, lift. rewrite H. simpl.
  destruct (pop_to_open stack result). reflexivity.
Qed.

Lemma InfixToPostfix_from_assignment expression name rest stack result (variables : store) :
  expression <> "" ->
  GetNextToken m expression = Ok (assignment_token name, rest) ->
  InfixToPostfix_from m expression stack result variables =
  (value <- EvaluateExpression m rest ;;
   _ <- map_assign name value ;;
   ret [number_token value]) variables.
Proof.
  intros Hne H. rewrite InfixToPostfix_from_eq.
  destruct expression; [congruence|].
  unfold InfixToPostfix_body, bind, lift. rewrite H. reflexivity.
Qed.

Lemma pop_to_open_no_open (stack result : list Token) :
  no_open stack = true -> pop_to_open stack result = ([], result ++ stack).
Proof.
  revert result. induction stack as [|top stack IH]; intros result H; simpl in *.
  - rewrite app_nil_r. reflexivity.
  - apply andb_prop in H as [Ht H]. rewrite Ht, IH by assumption.
    rewrite <- app_assoc. reflexivity.
Qed.

(** ** Two operators in a row *)

Lemma binary_operator_ends_number (c : ascii) (rest : string) :
  binary_operator c = true -> number_follows (String c rest) = false.
Proof.
  intros H. apply binary_operator_cases in H.
  destruct H as [->|[->|[->|[->| ->]]]]; reflexivity.
Qed.

Lemma integer_literal_nonempty (a rest : string) :
  integer_literal a = true -> (a ++ rest)%string <> "".
Proof. destruct a; [discriminate|]. intros _. discriminate. Qed.

Lemma InfixToPostfix_from_integer a rest stack result (variables : store) :
  integer_literal a = true ->
  number_follows rest = false ->
  InfixToPostfix_from m (a ++ rest) stack result variables =
  InfixToPostfix_from m rest stack (result ++ [number_token (integer_value a)]) variables.
Proof.
  intros Ha Hrest. apply InfixToPostfix_from_number.
  - apply integer_literal_nonempty, Ha.
  - apply GetNextToken_integer; assumption.
Qed.

Lemma InfixToPostfix_from_last_integer a stack result (variables : store) :
  integer_literal a = true ->
  InfixToPostfix_from m a stack result variables =
  (Ok ((result ++ [number_token (integer_value a)]) ++ stack), variables).
Proof.
  intros Ha.
  pose proof (InfixToPostfix_from_integer a "" stack result variables Ha eq_refl) as H.
  rewrite append_empty in H. rewrite H. apply InfixToPostfix_from_end.
Qed.

Lemma InfixToPostfix_from_binary c rest stack result (variables : store) :
  binary_operator c = true ->
  InfixToPostfix_from m (String c rest) stack result variables =
  InfixToPostfix_from m rest
    (operator_token c :: fst (pop_higher c stack result))
    (snd (pop_higher c stack result)) variables.
Proof.
  intros Hc. apply InfixToPostfix_from_operator; [discriminate|].
  apply GetNextToken_operator, Hc.
Qed.

Lemma InfixToPostfix_two_operators (a b c : string) (o1 o2 : ascii) (variables : store) :
  integer_literal a = true -> integer_literal b = true -> integer_literal c = true ->
  binary_operator o1 = true -> binary_operator o2 = true ->
  InfixToPostfix m (a ++ String o1 (b ++ String o2 c)) variables =
  (Ok (if (GetPrecedence o1 >=? GetPrecedence o2)%Z
       then [number_token (integer_value a); number_token (integer_value b);
             operator_token o1; number_token (integer_value c); operator_token o2]
       else [number_token (integer_value a); number_token (integer_value b);
             number_token (integer_value c); operator_token o2; operator_token o1]),
   variables).
Proof.
  intros Ha Hb Hc Ho1 Ho2. unfold InfixToPostfix.
  rewrite InfixToPostfix_from_integer
    by (try assumption; apply binary_operator_ends_number; assumption).
  rewrite InfixToPostfix_from_binary by assumption.
  rewrite InfixToPostfix_from_integer
    by (try assumption; apply binary_operator_ends_number; assumption).
  rewrite InfixToPostfix_from_binary by assumption.
  rewrite InfixToPostfix_from_last_integer by assumption.
  simpl. destruct (GetPrecedence o1 >=? GetPrecedence o2)%Z; reflexivity.
Qed.

End CalculatorFacts.

(** * The claims *)

(** A run of [EvaluateExpression] always ends: the fuel of the
    definition is never used up. *)
Lemma EvaluateExpression_ends (m : libm) (expression : string) (variables : store) :
  match fst (EvaluateExpression m expression variables) with
  | OutOfFuel => False
  | _ => True
  end.
Proof.
  destruct (EvaluateExpression_invariant m expression variables) as [H _].
  destruct (EvaluateExpression m expression variables).1; auto.
Qed.

(** [operator[]] alone does write: read at an absent key, it leaves a
    zero entry behind. *)
Example map_index_inserts :
  map_index "y" ∅ = (Ok 0%float, <["y" := 0%float]> ∅).
Proof. reflexivity. Qed.

(** C1 (as the code has it).  On ['.'] the lexer sets [decimals] to 0;
    a digit read at [decimals = k] is weighted [pow(10, -k)] and only then
    is [decimals] incremented.  The k-th digit after the point so
    contributes [digit * 10^-(k-1)], not [digit * 10^-k].  With
    [pow(10, 0) = 1], as the C standard has it, ["0.5"] lexes and
    evaluates to 5 and ["3.14"] to [4 + 4 * pow(10, -1)], not to 0.5 and
    3.14; an integer literal such as ["42"] has its exact value. *)
Theorem C1_first_fraction_digit_has_weight_one (m : libm) (variables : store) :
  pow m 10 0 = 1%float ->
  (forall rest num decimals,
      read_number m (String "." rest) num decimals = read_number m rest num 0) /\
  (forall c rest num k,
      isdigit c = true ->
      (0 <= k < INT_MAX)%Z ->
      read_number m (String c rest) num k =
      read_number m rest
        (PrimFloat.add num
           (PrimFloat.mul (int_to_double (digit_of c)) (pow m 10 (int_to_double (- k)))))
        (k + 1)) /\
  GetNextToken m "0.5" = Ok (number_token 5, "") /\
  EvaluateExpression m "0.5" variables = (Ok 5%float, variables) /\
  GetNextToken m "3.14" =
    Ok (number_token (PrimFloat.add 4 (PrimFloat.mul 4 (pow m 10 (-1)))), "") /\
  EvaluateExpression m "42" variables = (Ok 42%float, variables).
Proof.
  intros Hpow. split; [|split; [|split; [|split; [|split]]]].
  - reflexivity.
  - intros c rest num k Hc Hk. destruct (isdigit_class c Hc) as (_ & Hdot & _).
    simpl. rewrite Hc, Hdot. simpl.
    destruct (Z.eqb_spec k (-1)); [lia|].
    destruct (Z.eqb_spec k INT_MAX); [lia|]. reflexivity.
  - destruct m as [pw sn cs tn lg sq ex]; simpl in Hpow.
    vm_compute. rewrite Hpow. reflexivity.
  - destruct m as [pw sn cs tn lg sq ex]; simpl in Hpow.
    vm_compute. rewrite Hpow. reflexivity.
  - destruct m as [pw sn cs tn lg sq ex]; simpl in Hpow.
    vm_compute. rewrite Hpow. reflexivity.
  - destruct m; vm_compute; reflexivity.
Qed.

Lemma C1_witness :
  pow libm_ref 10 0 = 1%float /\
  EvaluateExpression libm_ref "0.5" ∅ = (Ok 5%float, ∅) /\
  GetNextToken libm_ref "3.14" =
    Ok (number_token (PrimFloat.add 4 (PrimFloat.div 4 10)), "").
Proof.
  split; [reflexivity|].
  pose proof (C1_first_fraction_digit_has_weight_one libm_ref ∅ eq_refl)
    as (_ & _ & _ & H05 & H314 & _).
  split; [exact H05|exact H314].
Defined.

(** C3.  On an [ASSIGNMENT] token for [name] the converter, whatever its
    operator stack and output hold, evaluates the rest of the input with
    [EvaluateExpression] on the same store, stores the value under [name]
    and returns the one-token sequence [Number value]; the evaluation as
    a whole returns that value.  ["x = 5"] returns 5 and sets [x], after
    which ["x + 1"] returns 6; ["1 + x = 5"] drops the [1 +], returns 5
    and sets [x]. *)
Theorem C3_assignment_evaluates_rest_and_stores (m : libm) (variables : store) :
  (forall expression name rest stack result,
      expression <> "" ->
      GetNextToken m expression = Ok (assignment_token name, rest) ->
      InfixToPostfix_from m expression stack result variables =
      (value <- EvaluateExpression m rest ;;
       _ <- map_assign name value ;;
       ret [number_token value]) variables) /\
  (forall name rhs,
      identifier name = true ->
      EvaluateExpression m (name ++ String "=" rhs) variables =
      (value <- EvaluateExpression m rhs ;;
       _ <- map_assign name value ;;
       ret value) variables) /\
  EvaluateExpression m "x = 5" variables = (Ok 5%float, <["x" := 5%float]> variables) /\
  EvaluateExpression m "x + 1" (<["x" := 5%float]> variables) =
    (Ok 6%float, <["x" := 5%float]> variables) /\
  EvaluateExpression m "1 + x = 5" variables = (Ok 5%float, <["x" := 5%float]> variables).
Proof.
  split; [|split; [|split; [|split]]].
  - intros. apply InfixToPostfix_from_assignment; assumption.
  - intros name rhs Hname.
    rewrite EvaluateExpression_eq. unfold bind at 1. unfold InfixToPostfix.
    rewrite (InfixToPostfix_from_assignment m _ name rhs).
    + unfold bind, map_assign, ret.
      destruct (EvaluateExpression m rhs variables) as [[v| | |] variables']; reflexivity.
    + destruct name; discriminate.
    + apply GetNextToken_assignment, Hname.
  - destruct m; vm_compute; reflexivity.
  - assert (InfixToPostfix m "x + 1" (<["x" := 5%float]> variables) =
            (Ok [variable_token "x"; number_token 1; operator_token "+"%char],
             <["x" := 5%float]> variables)) as H.
    { destruct m; vm_compute; reflexivity. }
    rewrite EvaluateExpression_eq. unfold bind. rewrite H. unfold EvaluatePostfix.
    rewrite (EvaluatePostfix_loop_variable_found m "x" 5%float) by apply lookup_insert_eq.
    reflexivity.
  - destruct m; vm_compute; reflexivity.
Qed.

Lemma C3_witness :
  EvaluateExpression libm_ref "total=2+3" ∅ = (Ok 5%float, <["total" := 5%float]> ∅).
Proof.
  rewrite (proj1 (proj2 (C3_assignment_evaluates_rest_and_stores libm_ref ∅))
             "total" "2+3" eq_refl).
  reflexivity.
Defined.

(** C4 (amended).  ['='] is in the single-character set ["+-*/^=()"] of
    the lexer: reached outside the identifier lookahead it is lexed as an
    [OPERATOR] token with symbol ['='], whatever follows; the lexer does
    not fail.  The token has precedence 0 and no evaluation rule:
    [GetOperatorResult] throws "Unknown operator" on it, which is how
    ["2 = 3"] fails. *)
Theorem C4_equals_is_lexed_as_operator (m : libm) (variables : store) :
  (forall rest, GetNextToken m (String "=" rest) = Ok (operator_token "="%char, rest)) /\
  GetPrecedence "=" = 0%Z /\
  (forall first second, GetOperatorResult m "=" first second = Throw UnknownOperator) /\
  InfixToPostfix m "2 = 3" variables =
    (Ok [number_token 2; number_token 3; operator_token "="%char], variables) /\
  EvaluateExpression m "2 = 3" variables = (Throw UnknownOperator, variables).
Proof.
  split; [|split; [|split; [|split]]].
  - apply GetNextToken_equals.
  - reflexivity.
  - reflexivity.
  - destruct m; vm_compute; reflexivity.
  - destruct m; vm_compute; reflexivity.
Qed.

(** C4, as stated, fails: on ["= 5"] the lexer returns an operator token
    and does not throw. *)
Lemma C4_counterexample :
  GetNextToken libm_ref "= 5" = Ok (operator_token "="%char, " 5") /\
  GetNextToken libm_ref "= 5" <> Throw (UnexpectedCharacter "=").
Proof. split; [reflexivity|discriminate]. Qed.

(** C5 (as the code has it).  When [')'] arrives and the operator stack
    holds no ['('], the loop of lines 286-292 empties the stack into the
    output and line 294 calls [pop()] on the empty stack, which is outside
    the contract of [std::stack]; the conversion does not go on to the rest
    of the input.  So for [")"] and ["2) + 3"]. *)
Theorem C5_unmatched_close_pops_empty_stack (m : libm) (variables : store) :
  (forall expression rest stack result,
      expression <> "" ->
      GetNextToken m expression = Ok (parenthesis_token ")"%char, rest) ->
      no_open stack = true ->
      InfixToPostfix_from m expression stack result variables = (Undefined, variables)) /\
  InfixToPostfix m ")" variables = (Undefined, variables) /\
  InfixToPostfix m "2) + 3" variables = (Undefined, variables) /\
  EvaluateExpression m "2) + 3" variables = (Undefined, variables).
Proof.
  split; [|split; [|split]].
  - intros expression rest stack result Hne Htok Hstack.
    rewrite (InfixToPostfix_from_close m expression rest) by assumption.
    rewrite pop_to_open_no_open by assumption. reflexivity.
  - destruct m; vm_compute; reflexivity.
  - destruct m; vm_compute; reflexivity.
  - destruct m; vm_compute; reflexivity.
Qed.

Lemma C5_witness :
  InfixToPostfix_from libm_ref ") + 3" [operator_token "*"%char] [number_token 2] ∅ =
  (Undefined, ∅).
Proof.
  refine (proj1 (C5_unmatched_close_pops_empty_stack libm_ref ∅)
            ") + 3" " + 3" [operator_token "*"%char] [number_token 2] _ _ _).
  - discriminate.
  - reflexivity.
  - reflexivity.
Defined.

(** C6.  On an [OPERATOR] token the evaluator takes the top of the stack
    as the right-hand operand and the value below it as the left-hand
    one; ['/'] throws "Division by zero" exactly when the right-hand
    operand compares equal to zero and otherwise yields the quotient;
    ["5/0"] fails with that error. *)
Theorem C6_operand_order_and_division_by_zero (m : libm) (variables : store) :
  (forall c postfix top bottom stack,
      EvaluatePostfix_loop m (operator_token c :: postfix) (top :: bottom :: stack) variables =
      (r <- lift (GetOperatorResult m c bottom top) ;;
       EvaluatePostfix_loop m postfix (r :: stack)) variables) /\
  (forall first second,
      GetOperatorResult m "-" first second = Ok (PrimFloat.sub first second) /\
      GetOperatorResult m "/" first second =
        (if PrimFloat.eqb second 0 then Throw DivisionByZero
         else Ok (PrimFloat.div first second))) /\
  (forall first second,
      GetOperatorResult m "/" first second = Throw DivisionByZero <->
      PrimFloat.eqb second 0 = true) /\
  EvaluateExpression m "5/0" variables = (Throw DivisionByZero, variables) /\
  EvaluateExpression m "6/3" variables = (Ok 2%float, variables) /\
  EvaluateExpression m "6-3" variables = (Ok 3%float, variables).
Proof.
  split; [|split; [|split; [|split; [|split]]]].
  - intros; apply EvaluatePostfix_loop_operator.
  - intros first second. split; reflexivity.
  - intros first second.
    change (GetOperatorResult m "/" first second)
      with (if PrimFloat.eqb second 0 then Throw DivisionByZero
            else @Ok float (PrimFloat.div first second)).
    destruct (PrimFloat.eqb second 0); split; intros H; try reflexivity; discriminate.
  - destruct m; vm_compute; reflexivity.
  - destruct m; vm_compute; reflexivity.
  - destruct m; vm_compute; reflexivity.
Qed.

Lemma C6_witness :
  PrimFloat.eqb (-0)%float 0 = true /\
  GetOperatorResult libm_ref "/" 5 (-0)%float = Throw DivisionByZero.
Proof.
  split; [reflexivity|].
  apply (proj1 (proj2 (proj2 (C6_operand_order_and_division_by_zero libm_ref ∅)))).
  reflexivity.
Defined.

(** C8.  If [EvaluateExpression] throws, the store is the one it was
    called with, and a run that changed the store returned a value: the
    only write is [variables[varName] = value], reached once the
    right-hand side has been evaluated, and from there on every enclosing
    call returns.  So for nested assignments as well. *)
Theorem C8_failure_leaves_store_unchanged
    (m : libm) (expression : string) (variables : store) :
  (forall e,
      fst (EvaluateExpression m expression variables) = Throw e ->
      snd (EvaluateExpression m expression variables) = variables) /\
  (snd (EvaluateExpression m expression variables) <> variables ->
   exists v, fst (EvaluateExpression m expression variables) = Ok v).
Proof.
  destruct (EvaluateExpression_invariant m expression variables) as [_ [Hs|[a [Ha _]]]].
  - split; [intros; exact Hs|]. intros H. destruct (H Hs).
  - split; [|eauto]. intros e H. rewrite H in Ha. discriminate.
Qed.

Lemma C8_witness :
  fst (EvaluateExpression libm_ref "x = y = 1/0" (<["x" := 5%float]> ∅)) = Throw DivisionByZero /\
  snd (EvaluateExpression libm_ref "x = y = 1/0" (<["x" := 5%float]> ∅)) = <["x" := 5%float]> ∅.
Proof.
  split; [vm_compute; reflexivity|].
  apply (proj1 (C8_failure_leaves_store_unchanged libm_ref "x = y = 1/0" _) DivisionByZero).
  vm_compute; reflexivity.
Defined.

(** C9.  [EvaluatePostfix] leaves the store as it found it, whether it
    returns, throws or leaves the contract of its stack: [variables[name]]
    is only reached behind [find(name) != end()], so the look-up of a
    present name inserts nothing and changes nothing. *)
Theorem C9_EvaluatePostfix_never_writes (m : libm) (postfix : list Token) (variables : store) :
  snd (EvaluatePostfix m postfix variables) = variables /\
  (forall stack, snd (EvaluatePostfix_loop m postfix stack variables) = variables) /\
  (forall name v,
      EvaluatePostfix m [variable_token name] (<[name := v]> variables) =
      (Ok v, <[name := v]> variables)).
Proof.
  split; [apply EvaluatePostfix_store|split].
  - intros stack. apply EvaluatePostfix_loop_frame.
  - intros name v. unfold EvaluatePostfix.
    rewrite (EvaluatePostfix_loop_variable_found m name v) by apply lookup_insert_eq.
    reflexivity.
Qed.

(** C10.  A postfix sequence that keeps the operand-stack discipline
    (two values under every operator, one under every function, exactly
    one left at the end) makes [EvaluatePostfix] return or throw.  Without
    it the evaluator reads the top of an empty stack: so for the inputs
    [""], ["+"] and ["2+"] of [EvaluateExpression], whose postfix
    sequences are [[]], [[+]] and [[2; +]]. *)
Theorem C10_EvaluatePostfix_needs_well_formed_input (m : libm) (variables : store) :
  (forall postfix,
      well_formed postfix = true ->
      defined (fst (EvaluatePostfix m postfix variables))) /\
  (well_formed [] = false /\
   InfixToPostfix m "" variables = (Ok [], variables) /\
   EvaluateExpression m "" variables = (Undefined, variables)) /\
  (well_formed [operator_token "+"%char] = false /\
   InfixToPostfix m "+" variables = (Ok [operator_token "+"%char], variables) /\
   EvaluateExpression m "+" variables = (Undefined, variables)) /\
  (well_formed [number_token 2; operator_token "+"%char] = false /\
   InfixToPostfix m "2+" variables =
     (Ok [number_token 2; operator_token "+"%char], variables) /\
   EvaluateExpression m "2+" variables = (Undefined, variables)).
Proof.
  split; [|split; [|split]].
  - intros postfix H. apply EvaluatePostfix_loop_defined. exact H.
  - repeat split; destruct m; vm_compute; reflexivity.
  - repeat split; destruct m; vm_compute; reflexivity.
  - repeat split; destruct m; vm_compute; reflexivity.
Qed.

Lemma C10_witness :
  defined (fst (EvaluatePostfix libm_ref
                  [number_token 5; number_token 0; operator_token "/"%char] ∅)).
Proof.
  apply (proj1 (C10_EvaluatePostfix_needs_well_formed_input libm_ref ∅)).
  reflexivity.
Defined.

(** * Further properties: the lexer *)

Section LexerFacts.

Variable m : libm.

Lemma is_suffix_refl (e : string) : is_suffix e e.
Proof. exists ""%string. reflexivity. Qed.

Lemma is_suffix_cons (c : ascii) (rest e : string) :
  is_suffix rest e -> is_suffix rest (String c e).
Proof. intros [pre ->]. exists (String c pre). reflexivity. Qed.

Lemma append_assoc (a b c : string) : ((a ++ b) ++ c)%string = (a ++ (b ++ c))%string.
Proof.
  induction a as [|d a IH]; [reflexivity|].
  change (String d ((a ++ b) ++ c) = String d (a ++ (b ++ c)))%string.
  f_equal. exact IH.
Qed.

Lemma is_suffix_trans (a b c : string) : is_suffix a b -> is_suffix b c -> is_suffix a c.
Proof.
  intros [p ->] [q ->]. exists (q ++ p)%string. symmetry. apply append_assoc.
Qed.


Lemma skip_space_spec (e : string) :
  exists ws, all_space ws = true /\ e = (ws ++ skip_space e)%string.
Proof.
  induction e as [|c e (ws & Hws & He)]; simpl.
  - exists ""%string. split; reflexivity.
  - destruct (isspace c) eqn:Hc.
    + exists (String c ws). split; [simpl; rewrite Hc; exact Hws|].
      change (String c e = String c (ws ++ skip_space e)%string). f_equal. exact He.
    + exists ""%string. split; reflexivity.
Qed.

Lemma skip_space_suffix (e : string) : is_suffix (skip_space e) e.
Proof. destruct (skip_space_spec e) as (ws & _ & H). exists ws. exact H. Qed.

Lemma skip_space_head (e : string) (c : ascii) (rest : string) :
  skip_space e = String c rest -> isspace c = false.
Proof.
  induction e as [|d e IH]; simpl; [discriminate|].
  destruct (isspace d) eqn:Hd; [exact IH|]. intros H; inversion H; subst. exact Hd.
Qed.

Lemma skip_space_app (ws e : string) :
  all_space ws = true -> skip_space (ws ++ e) = skip_space e.
Proof.
  induction ws as [|c ws IH]; intros H; [reflexivity|].
  simpl in H. apply andb_prop in H as [Hc H].
  change (skip_space (String c (ws ++ e)%string) = skip_space e).
  simpl. rewrite Hc. apply IH, H.
Qed.

Lemma skip_space_all_space (e : string) : all_space e = true -> skip_space e = "".
Proof.
  induction e as [|c e IH]; intros H; [reflexivity|].
  simpl in H. apply andb_prop in H as [Hc H]. simpl. rewrite Hc. apply IH, H.
Qed.

Lemma read_number_spec (e : string) :
  forall num decimals n rest,
    read_number m e num decimals = Ok (n, rest) ->
    is_suffix rest e /\ number_follows rest = false.
Proof.
  induction e as [|c e IH]; simpl; intros num decimals n rest H.
  - inversion H; subst. split; [apply is_suffix_refl|reflexivity].
  - destruct (isdigit c || Ascii.eqb c ".") eqn:Hc.
    + assert (forall num' decimals', read_number m e num' decimals' = Ok (n, rest) ->
                is_suffix rest (String c e) /\ number_follows rest = false) as Hrec.
      { intros num' decimals' H'. apply IH in H' as [H1 H2].
        split; [apply is_suffix_cons, H1|exact H2]. }
      destruct (Ascii.eqb c "."); [eapply Hrec, H|].
      destruct (decimals =? -1)%Z; [eapply Hrec, H|].
      destruct (decimals =? INT_MAX)%Z; [discriminate|eapply Hrec, H].
    + inversion H; subst. split; [apply is_suffix_refl|]. simpl. exact Hc.
Qed.

Lemma read_number_no_throw (e : string) :
  forall num decimals ex, read_number m e num decimals <> Throw ex.
Proof.
  induction e as [|c e IH]; simpl; intros num decimals ex; [discriminate|].
  destruct (isdigit c || Ascii.eqb c "."); [|discriminate].
  destruct (Ascii.eqb c "."); [apply IH|].
  destruct (decimals =? -1)%Z; [apply IH|].
  destruct (decimals =? INT_MAX)%Z; [discriminate|apply IH].
Qed.


Lemma read_name_spec (e : string) :
  forall acc name rest,
    read_name e acc = (name, rest) ->
    exists t, name = (acc ++ t)%string /\ all_alnum t = true /\
              e = (t ++ rest)%string /\ alnum_follows rest = false.
Proof.
  induction e as [|c e IH]; simpl; intros acc name rest H.
  - inversion H; subst. exists ""%string. rewrite append_empty. repeat split.
  - destruct (isalnum c) eqn:Hc.
    + apply IH in H as (t & Hn & Ht & He & Hr).
      exists (String c t). rewrite append_snoc in Hn.
      repeat split; try assumption.
      * simpl. rewrite Hc. exact Ht.
      * change (String c e = String c (t ++ rest)%string). f_equal. exact He.
    + inversion H; subst. exists ""%string. rewrite append_empty. repeat split.
      simpl. exact Hc.
Qed.

Lemma read_name_stop (a rest : string) :
  all_alnum a = true ->
  alnum_follows rest = false ->
  forall acc, read_name (a ++ rest) acc = ((acc ++ a)%string, rest).
Proof.
  intros Ha Hrest. induction a as [|c a IH]; intros acc.
  - change (read_name rest acc = ((acc ++ "")%string, rest)). rewrite append_empty.
    destruct rest as [|d rest]; [reflexivity|]. simpl in *. rewrite Hrest. reflexivity.
  - simpl in Ha. apply andb_prop in Ha as [Hc Ha].
    change (read_name (String c (a ++ rest)%string) acc = ((acc ++ String c a)%string, rest)).
    simpl. rewrite Hc, IH by assumption. rewrite append_snoc. reflexivity.
Qed.

(** [GetNextToken] branch by branch, with the look-ahead for ['='] as a test. *)
Lemma GetNextToken_unfold (e : string) :
  GetNextToken m e =
  match skip_space e with
  | EmptyString => Ok (end_token, "")
  | String c rest =>
      if isdigit c || Ascii.eqb c "." then
        match read_number m (String c rest) 0%float (-1)%Z with
        | Ok (num, e2) => Ok (number_token num, e2)
        | Throw ex => Throw ex
        | Undefined => Undefined
        | OutOfFuel => OutOfFuel
        end
      else if isalpha c then
        match skip_space (snd (read_name (String c rest) "")) with
        | String c3 e3 =>
            if Ascii.eqb c3 "=" then Ok (assignment_token (fst (read_name (String c rest) "")), e3)
            else Ok (identifier_token (fst (read_name (String c rest) "")), String c3 e3)
        | EmptyString => Ok (identifier_token (fst (read_name (String c rest) "")), "")
        end
      else if strchr "+-*/^=()" c then
        Ok (mkToken (if Ascii.eqb c "(" || Ascii.eqb c ")" then PARENTHESIS else OPERATOR)
              0 c "", rest)
      else Throw (UnexpectedCharacter c)
  end.
Proof.
  unfold GetNextToken.
  destruct (skip_space e) as [|c rest]; [reflexivity|].
  destruct (isdigit c || Ascii.eqb c "."); [reflexivity|].
  destruct (isalpha c); [|reflexivity].
  destruct (read_name (String c rest) "") as [name e2]. simpl fst. simpl snd.
  unfold identifier_token.
  destruct (skip_space e2) as [|c3 e3]; [destruct (functions_count name); reflexivity|].
  destruct (Ascii.eqb c3 "=") eqn:E.
  - apply Ascii.eqb_eq in E; subst. reflexivity.
  - destruct c3 as [[] [] [] [] [] [] [] []]; try discriminate E;
      destruct (functions_count name); reflexivity.
Qed.

Lemma GetNextToken_suffix (e : string) (token : Token) (rest : string) :
  GetNextToken m e = Ok (token, rest) -> is_suffix rest e.
Proof.
  rewrite GetNextToken_unfold.
  pose proof (skip_space_suffix e) as Hs.
  destruct (skip_space e) as [|c e1].
  - intros H; inversion H; subst. exact Hs.
  - destruct (isdigit c || Ascii.eqb c ".").
    + destruct (read_number m (String c e1) 0 (-1)) as [[num e2]| | |] eqn:En;
        try discriminate.
      intros H; inversion H; subst.
      apply read_number_spec in En as [En _]. eapply is_suffix_trans; eassumption.
    + destruct (isalpha c).
      * destruct (read_name (String c e1) "") as [name e2] eqn:Er. simpl fst; simpl snd.
        apply read_name_spec in Er as (t & _ & _ & He & _).
        assert (is_suffix e2 e) as H2.
        { eapply is_suffix_trans; [|exact Hs]. exists t. exact He. }
        pose proof (skip_space_suffix e2) as H3.
        destruct (skip_space e2) as [|c3 e3].
        { intros H; inversion H; subst. eapply is_suffix_trans; eassumption. }
        destruct (Ascii.eqb c3 "="); intros H; inversion H; subst.
        -- eapply is_suffix_trans; [|exact H2].
           eapply is_suffix_trans; [|exact H3]. exists (String c3 ""). reflexivity.
        -- eapply is_suffix_trans; eassumption.
      * destruct (strchr "+-*/^=()" c); [|discriminate].
        intros H; inversion H; subst.
        eapply is_suffix_trans; [|exact Hs]. exists (String c ""). reflexivity.
Qed.

Lemma GetNextToken_space (ws e : string) :
  all_space ws = true -> GetNextToken m (ws ++ e) = GetNextToken m e.
Proof. intros H. unfold GetNextToken. rewrite skip_space_app by assumption. reflexivity. Qed.

Lemma GetNextToken_end_iff (e : string) :
  (exists rest, GetNextToken m e = Ok (end_token, rest)) <-> all_space e = true.
Proof.
  split.
  - intros [rest H]. rewrite GetNextToken_unfold in H.
    destruct (skip_space_spec e) as (ws & Hws & He).
    destruct (skip_space e) as [|c e1].
    + rewrite He, append_empty. exact Hws.
    + exfalso. destruct (isdigit c || Ascii.eqb c ".").
      { destruct (read_number m (String c e1) 0 (-1)) as [[num e2]| | |]; discriminate. }
      destruct (isalpha c).
      { unfold identifier_token in H.
        destruct (skip_space (read_name (String c e1) "").2) as [|c3 e3];
          [|destruct (Ascii.eqb c3 "=")];
          try destruct (functions_count (read_name (String c e1) "").1); discriminate. }
      destruct (strchr "+-*/^=()" c); [|discriminate].
      destruct (Ascii.eqb c "(" || Ascii.eqb c ")"); discriminate.
  - intros H. exists ""%string. unfold GetNextToken.
    rewrite skip_space_all_space by assumption. reflexivity.
Qed.

Lemma GetNextToken_throw_iff (e : string) (ex : exception) :
  GetNextToken m e = Throw ex <->
  exists c rest,
    skip_space e = String c rest /\
    isdigit c = false /\ Ascii.eqb c "." = false /\ isalpha c = false /\
    strchr "+-*/^=()" c = false /\
    ex = UnexpectedCharacter c.
Proof.
  rewrite GetNextToken_unfold. split.
  - destruct (skip_space e) as [|c e1]; [discriminate|].
    destruct (isdigit c || Ascii.eqb c ".") eqn:Hnum.
    { destruct (read_number m (String c e1) 0 (-1)) as [[num e2]| | |] eqn:En;
        try discriminate.
      exfalso. eapply read_number_no_throw, En. }
    apply orb_false_elim in Hnum as [Hd Hdot].
    destruct (isalpha c) eqn:Ha.
    { destruct (skip_space (read_name (String c e1) "").2) as [|c3 e3];
        [|destruct (Ascii.eqb c3 "=")]; discriminate. }
    destruct (strchr "+-*/^=()" c) eqn:Hs; [discriminate|].
    intros H; inversion H; subst. exists c, e1. repeat split; assumption.
  - intros (c & rest & -> & Hd & Hdot & Ha & Hs & ->).
    rewrite Hd, Hdot, Ha, Hs. reflexivity.
Qed.


Lemma GetNextToken_lexed (e : string) (token : Token) (rest : string) :
  GetNextToken m e = Ok (token, rest) -> lexed_token token = true.
Proof.
  rewrite GetNextToken_unfold.
  destruct (skip_space e) as [|c e1].
  { intros H; inversion H; subst. reflexivity. }
  destruct (isdigit c || Ascii.eqb c ".") eqn:Hnum.
  { destruct (read_number m (String c e1) 0 (-1)) as [[num e2]| | |]; try discriminate.
    intros H; inversion H; subst. reflexivity. }
  destruct (isalpha c) eqn:Ha.
  - assert (identifier (read_name (String c e1) "").1 = true) as Hid.
    { destruct (isalpha_class c Ha) as (_ & _ & _ & Hal).
      simpl read_name. rewrite Hal.
      change ("" ++ String c "")%string with (String c "").
      destruct (read_name e1 (String c "")) as [name e2] eqn:Er.
      apply read_name_spec in Er as (t & -> & Ht & _ & _).
      simpl fst. change (String c "" ++ t)%string with (String c t).
      simpl. rewrite Ha. exact Ht. }
    assert (lexed_token (identifier_token (read_name (String c e1) "").1) = true) as Hok.
    { unfold identifier_token, lexed_token.
      destruct (functions_count (read_name (String c e1) "").1) eqn:Hf; cbn [type func op].
      - rewrite Hf. reflexivity.
      - rewrite Hid, Hf. reflexivity. }
    set (name := (read_name (String c e1) "").1) in *. clearbody name.
    destruct (skip_space (read_name (String c e1) "").2) as [|c3 e3].
    { intros H; inversion H; subst. exact Hok. }
    destruct (Ascii.eqb c3 "="); intros H; inversion H; subst; [|exact Hok].
    unfold lexed_token. cbn [type func op]. rewrite Hid. reflexivity.
  - destruct (strchr "+-*/^=()" c) eqn:Hs; [|discriminate].
    intros H; inversion H; subst. unfold lexed_token. cbn [type func op].
    destruct (Ascii.eqb c "(") eqn:H1; [reflexivity|].
    destruct (Ascii.eqb c ")") eqn:H2; [reflexivity|].
    cbn [orb type func op]. rewrite Ascii.eqb_sym in H1. rewrite Ascii.eqb_sym in H2.
    cbn [strchr] in Hs |- *. rewrite H1, H2 in Hs.
    destruct (Ascii.eqb "+" c), (Ascii.eqb "-" c), (Ascii.eqb "*" c), (Ascii.eqb "/" c),
      (Ascii.eqb "^" c), (Ascii.eqb "=" c); try reflexivity.
    cbn [orb] in Hs |- *. rewrite Hs. reflexivity.
Qed.

Lemma space_not_alnum (c : ascii) : isspace c = true -> isalnum c = false.
Proof.
  unfold isspace, isalnum, isalpha, isdigit. intros H.
  assert ((code c <= 32)%N) as Hc.
  { apply orb_prop in H as [H|H].
    - apply andb_prop in H as [_ H]. apply N.leb_le in H. lia.
    - apply N.eqb_eq in H. lia. }
  repeat (apply orb_false_intro); apply andb_false_intro1; apply N.leb_gt; lia.
Qed.

Lemma GetNextToken_identifier (name rest : string) :
  identifier name = true ->
  alnum_follows rest = false ->
  GetNextToken m (name ++ rest) =
  match skip_space rest with
  | String c3 e3 =>
      if Ascii.eqb c3 "=" then Ok (assignment_token name, e3)
      else Ok (identifier_token name, String c3 e3)
  | EmptyString => Ok (identifier_token name, "")
  end.
Proof.
  intros Hname Hrest. destruct name as [|c name]; [discriminate|].
  simpl in Hname. apply andb_prop in Hname as [Hc Hname].
  destruct (isalpha_class c Hc) as (Hsp & Hd & Hdot & Hal).
  rewrite GetNextToken_unfold.
  change (String c name ++ rest)%string with (String c (name ++ rest)%string).
  simpl skip_space. rewrite Hsp, Hd, Hdot, Hc. simpl orb. cbv iota.
  simpl read_name. rewrite Hal.
  change ("" ++ String c "")%string with (String c "").
  rewrite read_name_stop by assumption.
  change (String c "" ++ name)%string with (String c name). reflexivity.
Qed.

Lemma GetNextToken_assignment_spaced (name ws rest : string) :
  identifier name = true ->
  all_space ws = true ->
  GetNextToken m (name ++ ws ++ String "=" rest) = Ok (assignment_token name, rest).
Proof.
  intros Hname Hws. rewrite GetNextToken_identifier; [|assumption|].
  - rewrite skip_space_app by assumption. reflexivity.
  - destruct ws as [|c ws]; [reflexivity|].
    simpl in Hws. apply andb_prop in Hws as [Hc _].
    change (isalnum c = false). apply space_not_alnum, Hc.
Qed.

Lemma GetNextToken_name (name rest : string) :
  identifier name = true ->
  alnum_follows rest = false ->
  equals_follows (skip_space rest) = false ->
  GetNextToken m (name ++ rest) = Ok (identifier_token name, skip_space rest).
Proof.
  intros Hname Hrest Heq. rewrite GetNextToken_identifier by assumption.
  destruct (skip_space rest) as [|c3 e3]; [reflexivity|].
  simpl in Heq. rewrite Heq. reflexivity.
Qed.

Lemma read_number_digits (a rest : string) :
  all_digits a = true ->
  forall num, read_number m (a ++ rest) num (-1) = read_number m rest (accumulate num a) (-1).
Proof.
  intros Ha. induction a as [|c a IH]; intros num; [reflexivity|].
  simpl in Ha. apply andb_prop in Ha as [Hc Ha].
  destruct (isdigit_class c Hc) as (_ & Hdot & _).
  change (String c a ++ rest)%string with (String c (a ++ rest)%string).
  simpl. rewrite Hc, Hdot. simpl. apply IH, Ha.
Qed.

Lemma read_number_stop (rest : string) (num : float) (decimals : Z) :
  number_follows rest = false -> read_number m rest num decimals = Ok (num, rest).
Proof.
  intros H. destruct rest as [|c rest]; [reflexivity|]. simpl in *. rewrite H. reflexivity.
Qed.

Lemma GetNextToken_integer_point (a rest : string) :
  integer_literal a = true ->
  number_follows rest = false ->
  GetNextToken m (a ++ String "." rest) = Ok (number_token (integer_value a), rest).
Proof.
  intros Ha Hrest. destruct a as [|c a]; [discriminate|].
  simpl in Ha. pose proof Ha as Hall. apply andb_prop in Ha as [Hc Ha].
  destruct (isdigit_class c Hc) as (Hsp & _ & _).
  unfold GetNextToken.
  change (String c a ++ String "." rest)%string with (String c (a ++ String "." rest)%string).
  simpl skip_space. rewrite Hsp, Hc. simpl orb. cbv iota.
  change (String c (a ++ String "." rest)%string) with (String c a ++ String "." rest)%string.
  rewrite read_number_digits by assumption.
  change (read_number m (String "." rest) (accumulate 0 (String c a)) (-1))
    with (read_number m rest (accumulate 0 (String c a)) 0).
  rewrite read_number_stop by assumption. reflexivity.
Qed.

Lemma GetNextToken_point (rest : string) :
  number_follows rest = false ->
  GetNextToken m (String "." rest) = Ok (number_token 0, rest).
Proof.
  intros Hrest. unfold GetNextToken.
  change (skip_space (String "." rest)) with (String "." rest).
  change (isdigit "." || Ascii.eqb "." ".") with true. cbv iota.
  change (read_number m (String "." rest) 0 (-1)) with (read_number m rest 0 0).
  rewrite read_number_stop by assumption. reflexivity.
Qed.

Lemma GetNextToken_shape (e : string) (token : Token) (rest : string) :
  GetNextToken m e = Ok (token, rest) -> lexed_shape token.
Proof.
  intros H. pose proof (GetNextToken_lexed e token rest H) as Hlex.
  rewrite GetNextToken_unfold in H. unfold lexed_shape.
  destruct (skip_space e) as [|c e1].
  { inversion H; subst. auto. }
  destruct (isdigit c || Ascii.eqb c ".").
  { destruct (read_number m (String c e1) 0 (-1)) as [[num e2]| | |]; try discriminate.
    inversion H; subst. right; left. eauto. }
  destruct (isalpha c).
  - set (name := (read_name (String c e1) "").1) in *. clearbody name.
    assert (forall r, Ok (identifier_token name, r) = Ok (token, rest) ->
              lexed_shape token) as Hname.
    { intros r Hr. inversion Hr; subst. unfold identifier_token in *. unfold lexed_shape.
      destruct (functions_count name) eqn:Hf.
      - do 4 right; left. eauto.
      - do 5 right; left. unfold lexed_token in Hlex. cbn [type func op] in Hlex.
        apply andb_prop in Hlex as [Hlex _]. apply andb_prop in Hlex as [Hid _]. eauto. }
    destruct (skip_space (read_name (String c e1) "").2) as [|c3 e3];
      [eapply Hname, H|].
    destruct (Ascii.eqb c3 "="); [|eapply Hname, H].
    inversion H; subst. do 6 right.
    unfold lexed_token in Hlex. cbn [type func op] in Hlex.
    apply andb_prop in Hlex as [Hid _]. eauto.
  - destruct (strchr "+-*/^=()" c); [|discriminate].
    inversion H; subst. unfold lexed_token in Hlex. cbn [type func op] in Hlex.
    destruct (Ascii.eqb c "(") eqn:H1.
    { apply Ascii.eqb_eq in H1; subst. do 3 right; left. eauto. }
    destruct (Ascii.eqb c ")") eqn:H2.
    { apply Ascii.eqb_eq in H2; subst. do 3 right; left. eauto. }
    cbn [orb] in Hlex |- *. apply andb_prop in Hlex as [Hop _].
    do 2 right; left. eauto.
Qed.

End LexerFacts.

(** * Further properties: operators, functions, converter and evaluator *)

Section ConverterFacts.

Variable m : libm.

Lemma GetOperatorResult_binary (c : ascii) (first second : float) :
  binary_operator c = true ->
  GetOperatorResult m c first second =
  if Ascii.eqb c "/" && PrimFloat.eqb second 0 then Throw DivisionByZero
  else Ok (if Ascii.eqb c "+" then PrimFloat.add first second
           else if Ascii.eqb c "-" then PrimFloat.sub first second
           else if Ascii.eqb c "*" then PrimFloat.mul first second
           else if Ascii.eqb c "/" then PrimFloat.div first second
           else pow m first second).
Proof.
  intros H. apply binary_operator_cases in H.
  destruct H as [->|[->|[->|[->| ->]]]]; reflexivity.
Qed.

Lemma GetOperatorResult_other (c : ascii) (first second : float) :
  binary_operator c = false ->
  GetOperatorResult m c first second = Throw UnknownOperator.
Proof.
  unfold binary_operator. simpl. rewrite orb_false_r. intros H.
  repeat (apply orb_false_elim in H as [? H]).
  unfold GetOperatorResult.
  repeat match goal with E : Ascii.eqb c _ = false |- _ => rewrite E; clear E end.
  reflexivity.
Qed.

Lemma functions_count_cases (name : string) :
  functions_count name = true ->
  name = "sin" \/ name = "cos" \/ name = "tan" \/ name = "log" \/ name = "sqrt" \/
  name = "exp".
Proof.
  unfold functions_count. simpl. rewrite orb_false_r. intros H.
  repeat (apply orb_prop in H as [H|H]); apply String.eqb_eq in H; auto 10.
Qed.

Lemma GetFunctionResult_known (name : string) (arg : float) :
  functions_count name = true ->
  exists r, GetFunctionResult m name arg = Ok r.
Proof.
  intros H. apply functions_count_cases in H.
  destruct H as [->|[->|[->|[->|[->| ->]]]]]; eexists; reflexivity.
Qed.

Lemma GetFunctionResult_unknown (name : string) (arg : float) :
  functions_count name = false ->
  GetFunctionResult m name arg = Throw (UnknownFunction name).
Proof.
  unfold functions_count. simpl. rewrite orb_false_r. intros H.
  repeat (apply orb_false_elim in H as [? H]).
  unfold GetFunctionResult.
  repeat match goal with E : String.eqb name _ = false |- _ => rewrite E; clear E end.
  reflexivity.
Qed.

Lemma functions_identifier (name : string) :
  functions_count name = true ->
  identifier name = true /\ identifier_token name = function_token name.
Proof.
  intros H. unfold identifier_token. rewrite H. split; [|reflexivity].
  apply functions_count_cases in H.
  destruct H as [->|[->|[->|[->|[->| ->]]]]]; reflexivity.
Qed.

(** One turn of the converter on the token the lexer returns. *)
Lemma InfixToPostfix_from_step expression token rest stack result (variables : store) :
  expression <> "" ->
  GetNextToken m expression = Ok (token, rest) ->
  InfixToPostfix_from m expression stack result variables =
  match type token with
  | NUMBER | VARIABLE | FUNCTION =>
      InfixToPostfix_from m rest stack (result ++ [token]) variables
  | OPERATOR =>
      InfixToPostfix_from m rest
        (token :: fst (pop_higher (op token) stack result))
        (snd (pop_higher (op token) stack result)) variables
  | PARENTHESIS =>
      if Ascii.eqb (op token) "(" then
        InfixToPostfix_from m rest (token :: stack) result variables
      else if Ascii.eqb (op token) ")" then
        (stack2 <- lift (stack_pop (fst (pop_to_open stack result))) ;;
         InfixToPostfix_from m rest stack2 (snd (pop_to_open stack result))) variables
      else InfixToPostfix_from m rest stack result variables
  | ASSIGNMENT =>
      (value <- EvaluateExpression m rest ;;
       _ <- map_assign (func token) value ;;
       ret [number_token value]) variables
  | END => InfixToPostfix_from m rest stack result variables
  end.
Proof.
  intros Hne H. rewrite InfixToPostfix_from_eq.
  destruct expression; [congruence|].
  unfold InfixToPostfix_body, bind, lift. rewrite H.
  destruct (type token); try reflexivity.
  - destruct (pop_higher (op token) stack result); reflexivity.
  - destruct (Ascii.eqb (op token) "("); [reflexivity|].
    destruct (Ascii.eqb (op token) ")"); [|reflexivity].
    destruct (pop_to_open stack result); reflexivity.
Qed.

Lemma InfixToPostfix_from_open rest stack result (variables : store) :
  InfixToPostfix_from m (String "(" rest) stack result variables =
  InfixToPostfix_from m rest (parenthesis_token "("%char :: stack) result variables.
Proof.
  rewrite (InfixToPostfix_from_step _ (parenthesis_token "("%char) rest);
    [reflexivity|discriminate|reflexivity].
Qed.

Lemma InfixToPostfix_from_closing rest stack result (variables : store) :
  InfixToPostfix_from m (String ")" rest) stack result variables =
  (stack2 <- lift (stack_pop (fst (pop_to_open stack result))) ;;
   InfixToPostfix_from m rest stack2 (snd (pop_to_open stack result))) variables.
Proof.
  rewrite (InfixToPostfix_from_step _ (parenthesis_token ")"%char) rest);
    [reflexivity|discriminate|reflexivity].
Qed.

Lemma InfixToPostfix_from_function name rest stack result (variables : store) :
  functions_count name = true ->
  alnum_follows rest = false ->
  equals_follows (skip_space rest) = false ->
  InfixToPostfix_from m (name ++ rest) stack result variables =
  InfixToPostfix_from m (skip_space rest) stack (result ++ [function_token name]) variables.
Proof.
  intros Hf Hrest Heq. destruct (functions_identifier name Hf) as [Hid Htok].
  rewrite (InfixToPostfix_from_step _ (function_token name) (skip_space rest)).
  - reflexivity.
  - destruct name; discriminate.
  - rewrite GetNextToken_name by assumption. rewrite Htok. reflexivity.
Qed.

Lemma pop_higher_open (c : ascii) stack result :
  binary_operator c = true ->
  pop_higher c (parenthesis_token "("%char :: stack) result =
  (parenthesis_token "("%char :: stack, result).
Proof.
  intros H. apply binary_operator_cases in H.
  destruct H as [->|[->|[->|[->| ->]]]]; reflexivity.
Qed.

Lemma pop_to_open_operator (c : ascii) stack result :
  binary_operator c = true ->
  pop_to_open (operator_token c :: parenthesis_token "("%char :: stack) result =
  (parenthesis_token "("%char :: stack, result ++ [operator_token c]).
Proof.
  intros H. apply binary_operator_cases in H.
  destruct H as [->|[->|[->|[->| ->]]]]; reflexivity.
Qed.

Lemma pop_to_open_open stack result :
  pop_to_open (parenthesis_token "("%char :: stack) result =
  (parenthesis_token "("%char :: stack, result).
Proof. reflexivity. Qed.

Ltac literal_step :=
  rewrite InfixToPostfix_from_integer
    by (try assumption; try reflexivity; apply binary_operator_ends_number; assumption).

Ltac operator_step :=
  rewrite InfixToPostfix_from_binary by assumption; cbn [pop_higher fst snd].

Lemma InfixToPostfix_right_parenthesis (a b c : string) (o1 o2 : ascii) (variables : store) :
  integer_literal a = true -> integer_literal b = true -> integer_literal c = true ->
  binary_operator o1 = true -> binary_operator o2 = true ->
  InfixToPostfix m (a ++ String o1 (String "(" (b ++ String o2 (c ++ ")")))) variables =
  (Ok [number_token (integer_value a); number_token (integer_value b);
       number_token (integer_value c); operator_token o2; operator_token o1], variables).
Proof.
  intros Ha Hb Hc Ho1 Ho2. unfold InfixToPostfix.
  literal_step. operator_step. rewrite InfixToPostfix_from_open.
  literal_step. rewrite InfixToPostfix_from_binary by assumption.
  rewrite pop_higher_open by assumption. cbn [fst snd].
  literal_step. rewrite InfixToPostfix_from_closing.
  rewrite pop_to_open_operator by assumption. unfold bind, lift. cbn [fst snd stack_pop].
  rewrite InfixToPostfix_from_end. reflexivity.
Qed.

Lemma InfixToPostfix_left_parenthesis (a b c : string) (o1 o2 : ascii) (variables : store) :
  integer_literal a = true -> integer_literal b = true -> integer_literal c = true ->
  binary_operator o1 = true -> binary_operator o2 = true ->
  InfixToPostfix m (String "(" (a ++ String o1 (b ++ String ")" (String o2 c)))) variables =
  (Ok [number_token (integer_value a); number_token (integer_value b); operator_token o1;
       number_token (integer_value c); operator_token o2], variables).
Proof.
  intros Ha Hb Hc Ho1 Ho2. unfold InfixToPostfix.
  rewrite InfixToPostfix_from_open.
  literal_step. rewrite InfixToPostfix_from_binary by assumption.
  rewrite pop_higher_open by assumption. cbn [fst snd].
  literal_step. rewrite InfixToPostfix_from_closing.
  rewrite pop_to_open_operator by assumption. unfold bind, lift. cbn [fst snd stack_pop].
  operator_step.
  rewrite InfixToPostfix_from_last_integer by assumption. reflexivity.
Qed.

Lemma InfixToPostfix_open_left (a b : string) (o : ascii) (variables : store) :
  integer_literal a = true -> integer_literal b = true -> binary_operator o = true ->
  InfixToPostfix m (String "(" (a ++ String o b)) variables =
  (Ok [number_token (integer_value a); number_token (integer_value b); operator_token o;
       parenthesis_token "("%char], variables).
Proof.
  intros Ha Hb Ho. unfold InfixToPostfix.
  rewrite InfixToPostfix_from_open.
  literal_step. rewrite InfixToPostfix_from_binary by assumption.
  rewrite pop_higher_open by assumption. cbn [fst snd].
  rewrite InfixToPostfix_from_last_integer by assumption. reflexivity.
Qed.

Lemma InfixToPostfix_call (f a : string) (variables : store) :
  functions_count f = true -> integer_literal a = true ->
  InfixToPostfix m (f ++ String "(" (a ++ ")")) variables =
  (Ok [function_token f; number_token (integer_value a)], variables).
Proof.
  intros Hf Ha. unfold InfixToPostfix.
  rewrite InfixToPostfix_from_function by (try assumption; reflexivity).
  change (skip_space (String "(" (a ++ ")")%string)) with (String "(" (a ++ ")")%string).
  rewrite InfixToPostfix_from_open. literal_step.
  rewrite InfixToPostfix_from_closing, pop_to_open_open.
  unfold bind, lift. cbn [fst snd stack_pop].
  rewrite InfixToPostfix_from_end. reflexivity.
Qed.

Lemma InfixToPostfix_from_spaces (ws e : string) stack result (variables : store) :
  all_space ws = true ->
  InfixToPostfix_from m (ws ++ e) stack result variables =
  InfixToPostfix_from m e stack result variables.
Proof.
  intros Hws. destruct ws as [|c ws]; [reflexivity|].
  destruct e as [|d e].
  - rewrite append_empty.
    rewrite (InfixToPostfix_from_step (String c ws) end_token "");
      [reflexivity|discriminate|].
    unfold GetNextToken. rewrite skip_space_all_space by assumption. reflexivity.
  - rewrite 2!InfixToPostfix_from_eq.
    change (String c ws ++ String d e)%string with (String c (ws ++ String d e)%string).
    unfold InfixToPostfix_body, bind, lift.
    change (String c (ws ++ String d e)%string) with (String c ws ++ String d e)%string.
    rewrite GetNextToken_space by assumption. reflexivity.
Qed.

Lemma InfixToPostfix_infix_call (a f b : string) (o : ascii) (variables : store) :
  integer_literal a = true -> functions_count f = true -> integer_literal b = true ->
  binary_operator o = true ->
  InfixToPostfix m (a ++ String o (f ++ String "(" (b ++ ")"))) variables =
  (Ok [number_token (integer_value a); function_token f; number_token (integer_value b);
       operator_token o], variables).
Proof.
  intros Ha Hf Hb Ho. unfold InfixToPostfix.
  literal_step. operator_step.
  rewrite InfixToPostfix_from_function by (try assumption; reflexivity).
  change (skip_space (String "(" (b ++ ")")%string)) with (String "(" (b ++ ")")%string).
  rewrite InfixToPostfix_from_open. literal_step.
  rewrite InfixToPostfix_from_closing, pop_to_open_open.
  unfold bind, lift. cbn [fst snd stack_pop].
  rewrite InfixToPostfix_from_end. reflexivity.
Qed.

Lemma InfixToPostfix_name (name : string) stack result (variables : store) :
  identifier name = true ->
  InfixToPostfix_from m name stack result variables =
  (Ok ((result ++ [identifier_token name]) ++ stack), variables).
Proof.
  intros Hname.
  assert (GetNextToken m name = Ok (identifier_token name, "")) as H.
  { rewrite <- (append_empty name) at 1. apply GetNextToken_name; [assumption|reflexivity..]. }
  rewrite (InfixToPostfix_from_step name (identifier_token name) ""); [|destruct name; discriminate|exact H].
  unfold identifier_token. destruct (functions_count name); apply InfixToPostfix_from_end.
Qed.

Lemma InfixToPostfix_postfix_call (a f : string) (variables : store) :
  integer_literal a = true -> functions_count f = true ->
  InfixToPostfix m (a ++ String " " f) variables =
  (Ok [number_token (integer_value a); function_token f], variables).
Proof.
  intros Ha Hf. destruct (functions_identifier f Hf) as [Hid Htok]. unfold InfixToPostfix.
  literal_step.
  change (String " " f) with (String " " "" ++ f)%string.
  rewrite InfixToPostfix_from_spaces by reflexivity.
  rewrite InfixToPostfix_name by assumption. rewrite Htok. reflexivity.
Qed.

Lemma InfixToPostfix_two_operands (a b : string) (variables : store) :
  integer_literal a = true -> integer_literal b = true ->
  InfixToPostfix m (a ++ String " " b) variables =
  (Ok [number_token (integer_value a); number_token (integer_value b)], variables).
Proof.
  intros Ha Hb. unfold InfixToPostfix.
  literal_step.
  change (String " " b) with (String " " "" ++ b)%string.
  rewrite InfixToPostfix_from_spaces by reflexivity.
  rewrite InfixToPostfix_from_last_integer by assumption. reflexivity.
Qed.

Lemma EvaluatePostfix_loop_function f postfix arg stack (variables : store) :
  EvaluatePostfix_loop m (function_token f :: postfix) (arg :: stack) variables =
  (r <- lift (GetFunctionResult m f arg) ;;
   EvaluatePostfix_loop m postfix (r :: stack)) variables.
Proof. reflexivity. Qed.

Lemma EvaluateExpression_of_postfix (e : string) (postfix : list Token) (variables : store) :
  InfixToPostfix m e variables = (Ok postfix, variables) ->
  EvaluateExpression m e variables = EvaluatePostfix m postfix variables.
Proof. intros H. rewrite EvaluateExpression_eq. unfold bind. rewrite H. reflexivity. Qed.

(** ** Inputs without ['='] *)

Lemma has_equals_app (a b : string) :
  has_equals (a ++ b) = has_equals a || has_equals b.
Proof.
  induction a as [|c a IH]; [reflexivity|].
  change (has_equals (String c (a ++ b)%string) = has_equals (String c a) || has_equals b).
  simpl. rewrite IH, orb_assoc. reflexivity.
Qed.

Lemma has_equals_suffix (rest e : string) :
  is_suffix rest e -> has_equals e = false -> has_equals rest = false.
Proof.
  intros [pre ->] H. rewrite has_equals_app in H.
  apply orb_false_elim in H as [_ H]. exact H.
Qed.

Lemma GetNextToken_assignment_equals (e : string) (token : Token) (rest : string) :
  GetNextToken m e = Ok (token, rest) ->
  type token = ASSIGNMENT ->
  has_equals e = true.
Proof.
  rewrite GetNextToken_unfold.
  pose proof (skip_space_suffix e) as Hs.
  destruct (skip_space e) as [|c e1].
  { intros H; inversion H; subst. discriminate. }
  destruct (isdigit c || Ascii.eqb c ".").
  { destruct (read_number m (String c e1) 0 (-1)) as [[num e2]| | |]; try discriminate.
    intros H; inversion H; subst. discriminate. }
  destruct (isalpha c).
  - destruct (read_name (String c e1) "") as [name e2] eqn:Er. simpl fst; simpl snd.
    apply read_name_spec in Er as (t & _ & _ & He & _).
    pose proof (skip_space_suffix e2) as H3.
    assert (forall r, identifier_token name = token -> type token = ASSIGNMENT -> r) as Hno.
    { intros r <-. unfold identifier_token. destruct (functions_count name); discriminate. }
    destruct (skip_space e2) as [|c3 e3].
    { intros H; inversion H; subst. apply Hno. reflexivity. }
    assert (is_suffix (String c3 e3) e) as Hsuf.
    { eapply is_suffix_trans; [exact H3|].
      eapply is_suffix_trans; [|exact Hs]. exists t. exact He. }
    destruct (Ascii.eqb c3 "=") eqn:E3; intros H; inversion H; subst;
      [|apply Hno; reflexivity].
    intros _. destruct (has_equals e) eqn:Hq; [reflexivity|].
    apply (has_equals_suffix _ _ Hsuf) in Hq. simpl in Hq. rewrite E3 in Hq. discriminate.
  - destruct (strchr "+-*/^=()" c); [|discriminate].
    intros H; inversion H; subst. simpl.
    destruct (Ascii.eqb c "(" || Ascii.eqb c ")"); discriminate.
Qed.

Lemma read_only_aux (n : nat) :
  forall e, String.length e < n -> has_equals e = false ->
    (forall stack result variables,
        snd (InfixToPostfix_from m e stack result variables) = variables) /\
    (forall variables, snd (EvaluateExpression m e variables) = variables).
Proof.
  induction n as [|n IH]; intros e Hlen Heq; [lia|].
  assert (forall stack result variables,
             snd (InfixToPostfix_from m e stack result variables) = variables) as Hloop.
  { intros stack result variables. rewrite InfixToPostfix_from_eq.
    destruct e as [|c e]; [reflexivity|].
    unfold InfixToPostfix_body, bind, lift.
    destruct (GetNextToken m (String c e)) as [[token rest]| | |] eqn:E; try reflexivity.
    pose proof (GetNextToken_shorter m (String c e) token rest ltac:(discriminate) E) as Hshort.
    pose proof (has_equals_suffix _ _ (GetNextToken_suffix m _ _ _ E) Heq) as Hrest.
    destruct (IH rest ltac:(lia) Hrest) as [IHloop _].
    destruct (type token) eqn:Ht; try apply IHloop.
    - destruct (pop_higher (op token) stack result). apply IHloop.
    - pose proof (GetNextToken_assignment_equals _ _ _ E Ht). congruence.
    - destruct (Ascii.eqb (op token) "("); [apply IHloop|].
      destruct (Ascii.eqb (op token) ")"); [|apply IHloop].
      destruct (pop_to_open stack result) as [stack1 result1].
      destruct stack1; simpl; [reflexivity|apply IHloop]. }
  split; [exact Hloop|].
  intros variables. rewrite EvaluateExpression_eq. unfold bind, InfixToPostfix.
  specialize (Hloop [] [] variables).
  destruct (InfixToPostfix_from m e [] [] variables) as [[postfix| | |] variables'];
    simpl in Hloop; subst; try reflexivity.
  apply EvaluatePostfix_store.
Qed.

(** ** What the converter emits and what can be thrown *)

Lemma stacked_is_postfix (token : Token) :
  stacked_token token = true -> postfix_token token = true.
Proof. unfold stacked_token, postfix_token. destruct (type token); auto; discriminate. Qed.

Lemma pop_higher_tokens (c : ascii) stack :
  forall result,
    forallb stacked_token stack = true ->
    forallb postfix_token result = true ->
    forallb stacked_token (fst (pop_higher c stack result)) = true /\
    forallb postfix_token (snd (pop_higher c stack result)) = true.
Proof.
  induction stack as [|top stack IH]; intros result Hs Hr; simpl; [auto|].
  simpl in Hs. apply andb_prop in Hs as [Ht Hs].
  destruct (GetPrecedence (op top) >=? GetPrecedence c)%Z.
  - apply IH; [exact Hs|]. rewrite forallb_app, Hr. simpl.
    rewrite (stacked_is_postfix _ Ht). reflexivity.
  - simpl. rewrite Ht, Hs. auto.
Qed.

Lemma pop_to_open_tokens stack :
  forall result,
    forallb stacked_token stack = true ->
    forallb postfix_token result = true ->
    forallb stacked_token (fst (pop_to_open stack result)) = true /\
    forallb postfix_token (snd (pop_to_open stack result)) = true.
Proof.
  induction stack as [|top stack IH]; intros result Hs Hr; simpl; [auto|].
  simpl in Hs. apply andb_prop in Hs as [Ht Hs].
  destruct (negb (Ascii.eqb (op top) "(")).
  - apply IH; [exact Hs|]. rewrite forallb_app, Hr. simpl.
    rewrite (stacked_is_postfix _ Ht). reflexivity.
  - simpl. rewrite Ht, Hs. auto.
Qed.

Lemma drain_tokens stack result :
  forallb stacked_token stack = true ->
  forallb postfix_token result = true ->
  forallb postfix_token (drain stack result) = true.
Proof.
  intros Hs Hr. rewrite drain_app, forallb_app, Hr. simpl.
  induction stack as [|top stack IH]; [reflexivity|].
  simpl in *. apply andb_prop in Hs as [Ht Hs].
  rewrite (stacked_is_postfix _ Ht). apply IH, Hs.
Qed.

Lemma GetOperatorResult_throws (c : ascii) (first second : float) (ex : exception) :
  GetOperatorResult m c first second = Throw ex ->
  ex = DivisionByZero \/ ex = UnknownOperator.
Proof.
  unfold GetOperatorResult.
  repeat match goal with |- context [if ?b then _ else _] => destruct b end;
    intros H; inversion H; auto.
Qed.

Lemma EvaluatePostfix_loop_errors (postfix : list Token) :
  forallb postfix_token postfix = true ->
  forall stack variables ex,
    fst (EvaluatePostfix_loop m postfix stack variables) = Throw ex ->
    ex = DivisionByZero \/ ex = UnknownOperator \/ exists name, ex = UndefinedVariable name.
Proof.
  induction postfix as [|token postfix IH]; intros Hok stack variables ex; simpl.
  - destruct stack; discriminate.
  - simpl in Hok. apply andb_prop in Hok as [Ht Hok]. specialize (IH Hok).
    unfold postfix_token in Ht. unfold bind, lift.
    destruct (type token); try apply IH.
    + destruct stack as [|top [|bottom stack]]; simpl; try discriminate.
      destruct (GetOperatorResult m (op token) bottom top) eqn:E; simpl;
        try discriminate; [apply IH|].
      intros H; inversion H; subst.
      apply GetOperatorResult_throws in E as [->| ->]; auto.
    + destruct stack as [|arg stack]; simpl; try discriminate.
      destruct (GetFunctionResult_known (func token) arg Ht) as [r ->]. simpl. apply IH.
    + rewrite map_contains_spec. unfold map_index.
      destruct (variables !! func token) eqn:E; simpl; rewrite ?E; simpl; [apply IH|].
      intros H; inversion H; subst. eauto.
Qed.

Lemma converter_invariant (n : nat) :
  forall e, String.length e < n ->
    (forall stack result variables,
        forallb stacked_token stack = true ->
        forallb postfix_token result = true ->
        match fst (InfixToPostfix_from m e stack result variables) with
        | Ok postfix => forallb postfix_token postfix = true
        | Throw ex => calculator_error ex
        | _ => True
        end) /\
    (forall variables,
        match fst (EvaluateExpression m e variables) with
        | Throw ex => calculator_error ex
        | _ => True
        end).
Proof.
  induction n as [|n IH]; intros e Hlen; [lia|].
  assert (forall stack result variables,
             forallb stacked_token stack = true ->
             forallb postfix_token result = true ->
             match fst (InfixToPostfix_from m e stack result variables) with
             | Ok postfix => forallb postfix_token postfix = true
             | Throw ex => calculator_error ex
             | _ => True
             end) as Hloop.
  { intros stack result variables Hs Hr. rewrite InfixToPostfix_from_eq.
    destruct e as [|c e]; [simpl; apply drain_tokens; assumption|].
    unfold InfixToPostfix_body, bind, lift.
    destruct (GetNextToken m (String c e)) as [[token rest]|ex| |] eqn:E; simpl; auto.
    2:{ apply GetNextToken_throw_iff in E as (d & r & _ & _ & _ & _ & _ & ->).
        left. eauto. }
    pose proof (GetNextToken_shorter m (String c e) token rest ltac:(discriminate) E) as Hshort.
    pose proof (GetNextToken_lexed m _ _ _ E) as Hlex.
    destruct (IH rest ltac:(lia)) as [IHloop IHeval].
    unfold lexed_token in Hlex.
    destruct (type token) eqn:Ht.
    - apply IHloop; [exact Hs|]. rewrite forallb_app, Hr. simpl.
      unfold postfix_token. rewrite Ht. reflexivity.
    - destruct (pop_higher_tokens (op token) stack result Hs Hr) as [H1 H2].
      destruct (pop_higher (op token) stack result) as [stack1 result1].
      apply IHloop; [|exact H2]. simpl. unfold stacked_token at 1. rewrite Ht. exact H1.
    - apply andb_prop in Hlex as [Hf _].
      apply IHloop; [exact Hs|]. rewrite forallb_app, Hr. simpl.
      unfold postfix_token. rewrite Ht, Hf. reflexivity.
    - apply IHloop; [exact Hs|]. rewrite forallb_app, Hr. simpl.
      unfold postfix_token. rewrite Ht. reflexivity.
    - specialize (IHeval variables).
      destruct (EvaluateExpression m rest variables) as [[v| | |] variables'];
        simpl in *; auto.
    - destruct (Ascii.eqb (op token) "(") eqn:Eo.
      + apply IHloop; [|exact Hr]. simpl. unfold stacked_token at 1. rewrite Ht, Eo. exact Hs.
      + destruct (Ascii.eqb (op token) ")"); [|apply IHloop; assumption].
        destruct (pop_to_open_tokens stack result Hs Hr) as [H1 H2].
        destruct (pop_to_open stack result) as [stack1 result1].
        destruct stack1 as [|top stack2]; simpl; [exact I|].
        simpl in H1. apply andb_prop in H1 as [_ H1]. apply IHloop; assumption.
    - apply IHloop; assumption. }
  split; [exact Hloop|].
  intros variables. rewrite EvaluateExpression_eq. unfold bind, InfixToPostfix.
  specialize (Hloop [] [] variables eq_refl eq_refl).
  destruct (InfixToPostfix_from m e [] [] variables) as [[postfix| | |] variables'];
    simpl in *; auto.
  destruct (EvaluatePostfix m postfix variables').1 as [v|ex| |] eqn:Ev; auto.
  apply (EvaluatePostfix_loop_errors postfix Hloop) in Ev.
  unfold calculator_error. tauto.
Qed.

End ConverterFacts.

(** * Further properties: variables and the session *)

Section SessionFacts.

Variable m : libm.

Lemma EvaluateExpression_assign (name ws rhs : string) (variables variables' : store) (v : float) :
  identifier name = true ->
  all_space ws = true ->
  EvaluateExpression m rhs variables = (Ok v, variables') ->
  EvaluateExpression m (name ++ ws ++ String "=" rhs) variables =
  (Ok v, <[name := v]> variables').
Proof.
  intros Hname Hws Hrhs.
  rewrite EvaluateExpression_eq. unfold bind at 1. unfold InfixToPostfix.
  rewrite (InfixToPostfix_from_assignment m _ name rhs).
  - unfold bind, map_assign, ret. rewrite Hrhs. reflexivity.
  - destruct name; discriminate.
  - apply GetNextToken_assignment_spaced; assumption.
Qed.

Lemma EvaluateExpression_name (name : string) (variables : store) :
  identifier name = true ->
  EvaluateExpression m name variables =
  EvaluatePostfix m [identifier_token name] variables.
Proof.
  intros Hname. apply EvaluateExpression_of_postfix.
  unfold InfixToPostfix. rewrite InfixToPostfix_name by assumption. reflexivity.
Qed.

Lemma EvaluateExpression_variable (name : string) (variables : store) (v : float) :
  identifier name = true ->
  functions_count name = false ->
  variables !! name = Some v ->
  EvaluateExpression m name variables = (Ok v, variables).
Proof.
  intros Hname Hf Hv. rewrite EvaluateExpression_name by assumption.
  unfold identifier_token. rewrite Hf. unfold EvaluatePostfix.
  rewrite (EvaluatePostfix_loop_variable_found m name v) by assumption. reflexivity.
Qed.

Lemma EvaluateExpression_function_name (name : string) (variables : store) :
  functions_count name = true ->
  EvaluateExpression m name variables = (Undefined, variables).
Proof.
  intros Hf. destruct (functions_identifier name Hf) as [Hid Htok].
  rewrite EvaluateExpression_name by assumption. rewrite Htok. reflexivity.
Qed.

Lemma assignment_is_not_exit (name ws rhs : string) :
  String.eqb (name ++ ws ++ String "=" rhs) "exit" = false.
Proof.
  apply String.eqb_neq. intros H.
  assert (has_equals (name ++ ws ++ String "=" rhs) = true) as Hq.
  { rewrite !has_equals_app. simpl. rewrite !orb_true_r. reflexivity. }
  rewrite H in Hq. discriminate.
Qed.

Lemma main_loop_exit (before after : list string) (variables : store) :
  main_loop m (before ++ "exit" :: after) variables =
  main_loop m (before ++ ["exit"]) variables.
Proof.
  revert variables. induction before as [|input before IH]; intros variables; [reflexivity|].
  simpl. destruct (String.eqb input "exit"); [reflexivity|].
  destruct (EvaluateExpression m input variables) as [[r|[what]| |] variables'];
    try reflexivity; rewrite IH; reflexivity.
Qed.

Lemma main_loop_error (input what : string) (inputs : list string) (variables : store) :
  String.eqb input "exit" = false ->
  fst (EvaluateExpression m input variables) = Throw (runtime_error what) ->
  main_loop m (input :: inputs) variables =
  (cout "> " :: cerr "Error: " :: cerr what :: cerr endl :: fst (main_loop m inputs variables),
   snd (main_loop m inputs variables)).
Proof.
  intros Hexit Hthrow. simpl. rewrite Hexit.
  destruct (EvaluateExpression_invariant m input variables) as [_ Hw].
  destruct (EvaluateExpression m input variables) as [r variables']. simpl in *. subst r.
  destruct Hw as [->|[a [Ha _]]]; [|discriminate].
  destruct (main_loop m inputs variables). reflexivity.
Qed.

Lemma main_loop_result (input : string) (v : float) (inputs : list string)
    (variables variables' : store) :
  String.eqb input "exit" = false ->
  EvaluateExpression m input variables = (Ok v, variables') ->
  main_loop m (input :: inputs) variables =
  (cout "> " :: cout "Result : " :: cout_double v :: cout endl ::
     fst (main_loop m inputs variables'),
   snd (main_loop m inputs variables')).
Proof.
  intros Hexit H. simpl. rewrite Hexit, H.
  destruct (main_loop m inputs variables'). reflexivity.
Qed.

Lemma main_loop_read_only (inputs : list string) :
  forallb (fun input => negb (has_equals input)) inputs = true ->
  forall variables,
    match snd (main_loop m inputs variables) with
    | AtPrompt variables' | Returned variables' => variables' = variables
    | Lost _ => True
    end.
Proof.
  induction inputs as [|input inputs IH]; intros Hno variables; [reflexivity|].
  simpl in Hno. apply andb_prop in Hno as [Hin Hno]. apply negb_true_iff in Hin.
  simpl. destruct (String.eqb input "exit"); [reflexivity|].
  destruct (read_only_aux m (S (String.length input)) input ltac:(lia) Hin) as [_ Hro].
  specialize (Hro variables).
  destruct (EvaluateExpression m input variables) as [[r|[what]| |] variables'];
    simpl in Hro; subst; try exact I.
  - specialize (IH Hno variables). destruct (main_loop m inputs variables). exact IH.
  - specialize (IH Hno variables). destruct (main_loop m inputs variables). exact IH.
Qed.

End SessionFacts.

(** * Further properties, stated *)

(** X1.  A token that [GetNextToken] returns was read from the front of
    the input: what is left is a suffix of the input, and a strictly
    shorter one unless the input was empty.  The loop of [InfixToPostfix]
    so advances on every turn. *)
Theorem X1_lexer_moves_forward (m : libm) (e : string) (token : Token) (rest : string) :
  GetNextToken m e = Ok (token, rest) ->
  is_suffix rest e /\ (e <> "" -> String.length rest < String.length e).
Proof.
  intros H. split; [eapply GetNextToken_suffix, H|].
  intros Hne. eapply GetNextToken_shorter; eassumption.
Qed.

Lemma X1_witness :
  is_suffix "+3" "12+3" /\ ("12+3" <> "" -> String.length "+3" < String.length "12+3").
Proof.
  apply (X1_lexer_moves_forward libm_ref "12+3" (number_token 12) "+3"). reflexivity.
Defined.

(** X2.  White space in front of a token is skipped: it changes neither
    the token nor the rest, nor the value and store of
    [EvaluateExpression].  The [END] token is returned exactly for the
    inputs made of white space only (the empty one included), with
    nothing left. *)
Theorem X2_leading_white_space_is_skipped (m : libm) :
  (forall ws e, all_space ws = true -> GetNextToken m (ws ++ e) = GetNextToken m e) /\
  (forall ws e variables,
      all_space ws = true ->
      EvaluateExpression m (ws ++ e) variables = EvaluateExpression m e variables) /\
  (forall e, all_space e = true <-> exists rest, GetNextToken m e = Ok (end_token, rest)) /\
  (forall e, all_space e = true -> GetNextToken m e = Ok (end_token, "")).
Proof.
  split; [|split; [|split]].
  - intros; apply GetNextToken_space; assumption.
  - intros ws e variables Hws. rewrite !EvaluateExpression_eq. unfold bind, InfixToPostfix.
    rewrite InfixToPostfix_from_spaces by assumption. reflexivity.
  - intros e. symmetry. apply GetNextToken_end_iff.
  - intros e H. unfold GetNextToken. rewrite skip_space_all_space by assumption. reflexivity.
Qed.

Lemma X2_witness :
  EvaluateExpression libm_ref "   2+3" ∅ = EvaluateExpression libm_ref "2+3" ∅.
Proof.
  apply (proj1 (proj2 (X2_leading_white_space_is_skipped libm_ref)) "   " "2+3" ∅).
  reflexivity.
Defined.



(** X4.  Every token that [GetNextToken] returns is well formed: a
    [FUNCTION] token names one of the six functions, a [VARIABLE] token
    an identifier that is none of them, an [ASSIGNMENT] token an
    identifier, an [OPERATOR] token carries one of ["+-*/^="] (or NUL,
    which [strchr] finds as the terminator), a [PARENTHESIS] token ['(']
    or [')'], and the fields a kind does not use are zero and empty: the
    token is one of the brace initialisers of the source, [END] included. *)
Theorem X4_lexed_tokens_are_well_formed (m : libm) (e : string) (token : Token) (rest : string) :
  GetNextToken m e = Ok (token, rest) ->
  lexed_token token = true /\ lexed_shape token.
Proof.
  intros H. split; [eapply GetNextToken_lexed, H|eapply GetNextToken_shape, H].
Qed.

Lemma X4_witness :
  lexed_token (function_token "sqrt") = true /\ lexed_shape (function_token "sqrt").
Proof.
  apply (X4_lexed_tokens_are_well_formed libm_ref "sqrt(16)" (function_token "sqrt") "(16)").
  reflexivity.
Defined.

(** X5.  An identifier followed, after any white space, by ['='] is
    lexed as [ASSIGNMENT] and the ['='] is consumed; that look-ahead comes
    before the test for function names, so it holds for [sin], [cos], ...
    as well. *)
Theorem X5_assignment_look_ahead (m : libm) (name ws rest : string) :
  identifier name = true ->
  all_space ws = true ->
  GetNextToken m (name ++ ws ++ String "=" rest) = Ok (assignment_token name, rest).
Proof. apply GetNextToken_assignment_spaced. Qed.

Lemma X5_witness :
  GetNextToken libm_ref "sin  = 3" = Ok (assignment_token "sin", " 3").
Proof.
  apply (X5_assignment_look_ahead libm_ref "sin" "  " " 3"); reflexivity.
Defined.

(** X6.  An identifier that no ['='] follows is lexed as a [FUNCTION]
    token when it is one of [sin cos tan log sqrt exp] and as a
    [VARIABLE] token otherwise; the white space after it is consumed with
    it. *)
Theorem X6_identifier_is_function_or_variable (m : libm) (name rest : string) :
  identifier name = true ->
  alnum_follows rest = false ->
  equals_follows (skip_space rest) = false ->
  GetNextToken m (name ++ rest) =
  Ok (if functions_count name then function_token name else variable_token name,
      skip_space rest).
Proof. apply GetNextToken_name. Qed.

Lemma X6_witness :
  GetNextToken libm_ref "rate  * 2" = Ok (variable_token "rate", "* 2").
Proof.
  apply (X6_identifier_is_function_or_variable libm_ref "rate" "  * 2"); reflexivity.
Defined.

(** X7.  A run of digits that neither a digit nor ['.'] follows is
    lexed as the number built by [num = num * 10 + digit] from 0; a ['.']
    after the digits is taken into the literal and adds nothing; a ['.']
    on its own is the number 0. *)
Theorem X7_integer_literals_and_points (m : libm) (a rest : string) :
  integer_literal a = true ->
  number_follows rest = false ->
  GetNextToken m (a ++ rest) = Ok (number_token (integer_value a), rest) /\
  GetNextToken m (a ++ String "." rest) = Ok (number_token (integer_value a), rest) /\
  GetNextToken m (String "." rest) = Ok (number_token 0, rest).
Proof.
  intros Ha Hrest. split; [|split].
  - apply GetNextToken_integer; assumption.
  - apply GetNextToken_integer_point; assumption.
  - apply GetNextToken_point; assumption.
Qed.

Lemma X7_witness :
  GetNextToken libm_ref "120.+1" = Ok (number_token 120, "+1").
Proof.
  apply (proj1 (proj2 (X7_integer_literals_and_points libm_ref "120" "+1" eq_refl eq_refl))).
Defined.

(** X8.  [GetOperatorResult] knows the five operators [+ - * / ^] and
    nothing else: on them it returns the sum, difference, product,
    quotient or power, except that ['/'] throws "Division by zero" on a
    zero divisor; on any other character it throws "Unknown operator". *)
Theorem X8_operator_semantics (m : libm) (c : ascii) (first second : float) :
  (binary_operator c = true ->
   GetOperatorResult m c first second =
   if Ascii.eqb c "/" && PrimFloat.eqb second 0 then Throw DivisionByZero
   else Ok (if Ascii.eqb c "+" then PrimFloat.add first second
            else if Ascii.eqb c "-" then PrimFloat.sub first second
            else if Ascii.eqb c "*" then PrimFloat.mul first second
            else if Ascii.eqb c "/" then PrimFloat.div first second
            else pow m first second)) /\
  (GetOperatorResult m c first second = Throw UnknownOperator <-> binary_operator c = false).
Proof.
  split; [apply GetOperatorResult_binary|]. split.
  - intros H. destruct (binary_operator c) eqn:Hc; [|reflexivity].
    rewrite GetOperatorResult_binary in H by assumption.
    destruct (Ascii.eqb c "/" && PrimFloat.eqb second 0); discriminate.
  - apply GetOperatorResult_other.
Qed.

Lemma X8_witness :
  GetOperatorResult libm_ref "*" 6 7 = Ok 42%float /\
  GetOperatorResult libm_ref "=" 6 7 = Throw UnknownOperator.
Proof.
  split.
  - apply (proj1 (X8_operator_semantics libm_ref "*" 6 7)). reflexivity.
  - apply (proj2 (X8_operator_semantics libm_ref "=" 6 7)). reflexivity.
Defined.

(** X9.  The table [functions] and the dispatch of [GetFunctionResult]
    agree: a name is in the table exactly when [GetFunctionResult]
    returns a value for it, and for every other name it throws
    "Unknown function: " followed by the name. *)
Theorem X9_function_table_matches_dispatch (m : libm) (name : string) (arg : float) :
  (functions_count name = true <-> exists r, GetFunctionResult m name arg = Ok r) /\
  (functions_count name = false <->
   GetFunctionResult m name arg = Throw (UnknownFunction name)).
Proof.
  split; split.
  - apply GetFunctionResult_known.
  - intros [r H]. destruct (functions_count name) eqn:Hf; [reflexivity|].
    rewrite GetFunctionResult_unknown in H by assumption. discriminate.
  - apply GetFunctionResult_unknown.
  - intros H. destruct (functions_count name) eqn:Hf; [|reflexivity].
    destruct (GetFunctionResult_known m name arg Hf) as [r Hr]. congruence.
Qed.

Lemma X9_witness :
  GetFunctionResult libm_ref "sinh" 0 = Throw (UnknownFunction "sinh").
Proof.
  apply (proj1 (proj2 (X9_function_table_matches_dispatch libm_ref "sinh" 0))). reflexivity.
Defined.

(** X10.  Parentheses override the precedence table: for integer
    literals [a b c] and any two binary operators, [a o1 (b o2 c)] is
    converted to [a b c o2 o1] and [(a o1 b) o2 c] to [a b o1 c o2],
    whatever the precedences of [o1] and [o2]. *)
Theorem X10_parentheses_override_precedence
    (m : libm) (a b c : string) (o1 o2 : ascii) (variables : store) :
  integer_literal a = true -> integer_literal b = true -> integer_literal c = true ->
  binary_operator o1 = true -> binary_operator o2 = true ->
  InfixToPostfix m (a ++ String o1 (String "(" (b ++ String o2 (c ++ ")")))) variables =
    (Ok [number_token (integer_value a); number_token (integer_value b);
         number_token (integer_value c); operator_token o2; operator_token o1], variables) /\
  InfixToPostfix m (String "(" (a ++ String o1 (b ++ String ")" (String o2 c)))) variables =
    (Ok [number_token (integer_value a); number_token (integer_value b); operator_token o1;
         number_token (integer_value c); operator_token o2], variables).
Proof.
  intros. split.
  - apply InfixToPostfix_right_parenthesis; assumption.
  - apply InfixToPostfix_left_parenthesis; assumption.
Qed.

Lemma X10_witness :
  InfixToPostfix libm_ref "2^(3+4)" ∅ =
  (Ok [number_token 2; number_token 3; number_token 4;
       operator_token "+"%char; operator_token "^"%char], ∅).
Proof.
  apply (proj1 (X10_parentheses_override_precedence libm_ref "2" "3" "4" "^" "+" ∅
                  eq_refl eq_refl eq_refl eq_refl eq_refl)).
Defined.

(** X11.  A ['('] that is never closed is not reported: it stays on the
    operator stack, is drained into the output at the end, and the
    evaluator passes over it.  [(a o b] so evaluates like [a o b]. *)
Theorem X11_unclosed_parenthesis_is_ignored
    (m : libm) (a b : string) (o : ascii) (variables : store) :
  integer_literal a = true -> integer_literal b = true -> binary_operator o = true ->
  InfixToPostfix m (String "(" (a ++ String o b)) variables =
    (Ok [number_token (integer_value a); number_token (integer_value b); operator_token o;
         parenthesis_token "("%char], variables) /\
  EvaluateExpression m (String "(" (a ++ String o b)) variables =
    (GetOperatorResult m o (integer_value a) (integer_value b), variables).
Proof.
  intros Ha Hb Ho.
  pose proof (InfixToPostfix_open_left m a b o variables Ha Hb Ho) as H.
  split; [exact H|].
  rewrite (EvaluateExpression_of_postfix m _ _ _ H). unfold EvaluatePostfix.
  rewrite !EvaluatePostfix_loop_number, EvaluatePostfix_loop_operator.
  unfold bind, lift.
  destruct (GetOperatorResult m o (integer_value a) (integer_value b)); reflexivity.
Qed.

Lemma X11_witness :
  EvaluateExpression libm_ref "(2+3" ∅ = (Ok 5%float, ∅).
Proof.
  apply (proj2 (X11_unclosed_parenthesis_is_ignored libm_ref "2" "3" "+" ∅
                  eq_refl eq_refl eq_refl)).
Defined.

(** X12.  The converter sends a [FUNCTION] token to the output as soon
    as it is read, before its argument, and the evaluator applies it to
    the value on top of the stack at that point.  So the call [f(a)]
    alone reads the top of an empty stack; in [a o f(b)] the function is
    applied to [a], giving [f(a) o b]; and the postfix form [a f] is what
    evaluates to [f(a)]. *)
Theorem X12_function_applies_to_preceding_value
    (m : libm) (f a b : string) (o : ascii) (variables : store) :
  functions_count f = true ->
  integer_literal a = true -> integer_literal b = true -> binary_operator o = true ->
  EvaluateExpression m (f ++ String "(" (a ++ ")")) variables = (Undefined, variables) /\
  EvaluateExpression m (a ++ String o (f ++ String "(" (b ++ ")"))) variables =
    (r <- lift (GetFunctionResult m f (integer_value a)) ;;
     lift (GetOperatorResult m o r (integer_value b))) variables /\
  EvaluateExpression m (a ++ String " " f) variables =
    (GetFunctionResult m f (integer_value a), variables).
Proof.
  intros Hf Ha Hb Ho. split; [|split].
  - rewrite (EvaluateExpression_of_postfix m _ _ _ (InfixToPostfix_call m f a variables Hf Ha)).
    reflexivity.
  - rewrite (EvaluateExpression_of_postfix m _ _ _
               (InfixToPostfix_infix_call m a f b o variables Ha Hf Hb Ho)).
    unfold EvaluatePostfix.
    rewrite EvaluatePostfix_loop_number, EvaluatePostfix_loop_function.
    unfold bind, lift.
    destruct (GetFunctionResult m f (integer_value a)) as [r| | |]; try reflexivity.
    rewrite EvaluatePostfix_loop_number, EvaluatePostfix_loop_operator.
    unfold bind, lift.
    destruct (GetOperatorResult m o r (integer_value b)); reflexivity.
  - rewrite (EvaluateExpression_of_postfix m _ _ _
               (InfixToPostfix_postfix_call m a f variables Ha Hf)).
    unfold EvaluatePostfix.
    rewrite EvaluatePostfix_loop_number, EvaluatePostfix_loop_function.
    unfold bind, lift.
    destruct (GetFunctionResult m f (integer_value a)); reflexivity.
Qed.

Lemma X12_witness :
  EvaluateExpression libm_ref "sqrt(16)" ∅ = (Undefined, ∅) /\
  EvaluateExpression libm_ref "16+sqrt(9)" ∅ = (Ok 13%float, ∅) /\
  EvaluateExpression libm_ref "16 sqrt" ∅ = (Ok 4%float, ∅).
Proof.
  pose proof (X12_function_applies_to_preceding_value libm_ref "sqrt" "16" "9" "+" ∅
                eq_refl eq_refl eq_refl eq_refl) as (H1 & H2 & H3).
  split; [|split].
  - pose proof (X12_function_applies_to_preceding_value libm_ref "sqrt" "16" "16" "+" ∅
                  eq_refl eq_refl eq_refl eq_refl) as (H & _ & _). exact H.
  - exact H2.
  - exact H3.
Defined.

(** X13.  An input without ['='] is read-only: neither [InfixToPostfix]
    nor [EvaluateExpression] changes the store, whatever the outcome, and
    evaluating it a second time gives the same outcome. *)
Theorem X13_no_equals_no_write (m : libm) (e : string) (variables : store) :
  has_equals e = false ->
  snd (InfixToPostfix m e variables) = variables /\
  snd (EvaluateExpression m e variables) = variables /\
  EvaluateExpression m e (snd (EvaluateExpression m e variables)) =
  EvaluateExpression m e variables.
Proof.
  intros H.
  destruct (read_only_aux m (S (String.length e)) e ltac:(lia) H) as [H1 H2].
  split; [apply H1|]. split; [apply H2|]. rewrite H2. reflexivity.
Qed.

Lemma X13_witness :
  snd (EvaluateExpression libm_ref "x*(y+1)/0" (<["x" := 2%float]> (<["y" := 3%float]> ∅))) =
  <["x" := 2%float]> (<["y" := 3%float]> ∅).
Proof.
  apply (proj1 (proj2 (X13_no_equals_no_write libm_ref "x*(y+1)/0" _ eq_refl))).
Defined.

(** X14.  The sequence [InfixToPostfix] returns holds only [NUMBER],
    [VARIABLE] and [OPERATOR] tokens, [FUNCTION] tokens of the six known
    names and, for parentheses left open, ['('] tokens: never a [')'], an
    [ASSIGNMENT] or an [END] token. *)
Theorem X14_postfix_tokens (m : libm) (e : string) (variables : store) (postfix : list Token) :
  fst (InfixToPostfix m e variables) = Ok postfix ->
  forallb postfix_token postfix = true.
Proof.
  intros H.
  destruct (converter_invariant m (S (String.length e)) e ltac:(lia)) as [Hc _].
  specialize (Hc [] [] variables eq_refl eq_refl).
  unfold InfixToPostfix in H. rewrite H in Hc. exact Hc.
Qed.

Lemma X14_witness :
  forallb postfix_token
    [number_token 2; function_token "sin"; variable_token "x"; operator_token "*"%char;
     parenthesis_token "("%char] = true.
Proof.
  apply (X14_postfix_tokens libm_ref "(2 sin * x" ∅). vm_compute. reflexivity.
Defined.

(** X15.  Whatever the input and the store, the only errors
    [EvaluateExpression] throws are "Unexpected character", "Division by
    zero", "Unknown operator" and "Undefined variable".  "Unknown
    function" is never thrown: the lexer makes [FUNCTION] tokens of the
    six known names only. *)
Theorem X15_errors_of_EvaluateExpression
    (m : libm) (e : string) (variables : store) (ex : exception) :
  fst (EvaluateExpression m e variables) = Throw ex ->
  calculator_error ex /\ forall f, ex <> UnknownFunction f.
Proof.
  intros H.
  destruct (converter_invariant m (S (String.length e)) e ltac:(lia)) as [_ He].
  specialize (He variables). rewrite H in He. split; [exact He|].
  intros f Hf. subst ex.
  destruct He as [[c Hc]|[Hc|[Hc|[name Hc]]]]; inversion Hc as [Hs];
    vm_compute in Hs; discriminate Hs.
Qed.

Lemma X15_witness :
  calculator_error (UndefinedVariable "y") /\
  forall f, UndefinedVariable "y" <> UnknownFunction f.
Proof.
  apply (X15_errors_of_EvaluateExpression libm_ref "x = (2 + y) * 3" ∅). vm_compute. reflexivity.
Defined.

(** X16.  Every call of [EvaluateExpression] ends: the loop of the
    converter advances in the input on every turn and the call made for an
    assignment is on a strictly shorter string.  In the model, any fuel
    from [2 * length + 2] on gives the result of [EvaluateExpression], and
    that result is never [OutOfFuel]. *)
Theorem X16_evaluation_ends (m : libm) (e : string) (variables : store) (fuel : nat) :
  2 * String.length e + 2 <= fuel ->
  EvaluateExpression_fuel m fuel e variables = EvaluateExpression m e variables /\
  fst (EvaluateExpression m e variables) <> OutOfFuel.
Proof.
  intros H. split; [apply EvaluateExpression_fuel_enough, H|].
  apply EvaluateExpression_invariant.
Qed.

Lemma X16_witness :
  EvaluateExpression_fuel libm_ref 100 "a = b = c = 1+2" ∅ =
  EvaluateExpression libm_ref "a = b = c = 1+2" ∅ /\
  fst (EvaluateExpression libm_ref "a = b = c = 1+2" ∅) <> OutOfFuel.
Proof.
  apply (X16_evaluation_ends libm_ref "a = b = c = 1+2" ∅ 100). vm_compute. lia.
Defined.

(** X17.  A value assigned to a name is the value read back under that
    name: if the right-hand side evaluates to [v], then [name=rhs]
    returns [v] and stores it, and evaluating [name] alone in the
    resulting store returns [v].  That holds for the names that are no
    function names; a value stored under [sin], [cos], ... cannot be read
    back, as the name alone is lexed as a [FUNCTION] token and finds an
    empty stack. *)
Theorem X17_assign_then_read
    (m : libm) (name rhs : string) (variables variables' : store) (v : float) :
  identifier name = true ->
  EvaluateExpression m rhs variables = (Ok v, variables') ->
  EvaluateExpression m (name ++ String "=" rhs) variables = (Ok v, <[name := v]> variables') /\
  (functions_count name = false ->
   EvaluateExpression m name (<[name := v]> variables') = (Ok v, <[name := v]> variables')) /\
  (functions_count name = true ->
   EvaluateExpression m name (<[name := v]> variables') = (Undefined, <[name := v]> variables')).
Proof.
  intros Hname Hrhs. split; [|split].
  - apply (EvaluateExpression_assign m name "" rhs); [assumption|reflexivity|assumption].
  - intros Hf. apply EvaluateExpression_variable; [assumption..|apply lookup_insert_eq].
  - intros Hf. apply EvaluateExpression_function_name, Hf.
Qed.

Lemma X17_witness :
  EvaluateExpression libm_ref "rate=2*3" ∅ = (Ok 6%float, <["rate" := 6%float]> ∅) /\
  EvaluateExpression libm_ref "rate" (<["rate" := 6%float]> ∅) =
    (Ok 6%float, <["rate" := 6%float]> ∅).
Proof.
  pose proof (X17_assign_then_read libm_ref "rate" "2*3" ∅ ∅ 6%float eq_refl) as H.
  destruct H as (H1 & H2 & _); [vm_compute; reflexivity|].
  split; [exact H1|apply H2; reflexivity].
Defined.

(** X18.  Operands that no operator consumes are dropped without an
    error: the result is the top of the operand stack at the end.  Two
    integer literals separated by a blank evaluate to the second. *)
Theorem X18_unused_operand_is_dropped (m : libm) (a b : string) (variables : store) :
  integer_literal a = true -> integer_literal b = true ->
  InfixToPostfix m (a ++ String " " b) variables =
    (Ok [number_token (integer_value a); number_token (integer_value b)], variables) /\
  EvaluateExpression m (a ++ String " " b) variables = (Ok (integer_value b), variables).
Proof.
  intros Ha Hb.
  pose proof (InfixToPostfix_two_operands m a b variables Ha Hb) as H.
  split; [exact H|].
  rewrite (EvaluateExpression_of_postfix m _ _ _ H). reflexivity.
Qed.

Lemma X18_witness :
  EvaluateExpression libm_ref "12 34" ∅ = (Ok 34%float, ∅).
Proof.
  apply (proj2 (X18_unused_operand_is_dropped libm_ref "12" "34" ∅ eq_refl eq_refl)).
Defined.

(** X19.  [main] stops at the first line ["exit"]: it returns with the
    store as it is, and prints and evaluates nothing of what follows. *)
Theorem X19_exit_ends_the_session
    (m : libm) (before after : list string) (variables : store) :
  main_loop m (before ++ "exit" :: after) variables =
    main_loop m (before ++ ["exit"]) variables /\
  main_loop m ("exit" :: after) variables = ([cout "> "], Returned variables) /\
  main m (before ++ "exit" :: after) = main m (before ++ ["exit"]).
Proof.
  split; [apply main_loop_exit|]. split; [reflexivity|].
  unfold main. rewrite main_loop_exit. reflexivity.
Qed.

(** X20.  When the evaluation of a line throws, [main] prints
    "Error: " and the message to [std::cerr] and goes on with the next
    line in the store it had before that line. *)
Theorem X20_error_is_reported_and_session_continues
    (m : libm) (input what : string) (inputs : list string) (variables : store) :
  String.eqb input "exit" = false ->
  fst (EvaluateExpression m input variables) = Throw (runtime_error what) ->
  main_loop m (input :: inputs) variables =
  (cout "> " :: cerr "Error: " :: cerr what :: cerr endl :: fst (main_loop m inputs variables),
   snd (main_loop m inputs variables)).
Proof. apply main_loop_error. Qed.

Lemma X20_witness :
  main_loop libm_ref ["x = 1/0"; "2+3"] ∅ =
  ([cout "> "; cerr "Error: "; cerr "Division by zero"; cerr endl;
    cout "> "; cout "Result : "; cout_double 5; cout endl; cout "> "],
   AtPrompt ∅).
Proof.
  rewrite (X20_error_is_reported_and_session_continues libm_ref
             "x = 1/0" "Division by zero" ["2+3"] ∅);
    [reflexivity|reflexivity|vm_compute; reflexivity].
Defined.

(** X21.  Lines without ['='] never change the variables: after any
    number of them [main] waits or returns with the store it started
    from. *)
Theorem X21_lines_without_equals_keep_the_store
    (m : libm) (inputs : list string) (variables : store) :
  forallb (fun input => negb (has_equals input)) inputs = true ->
  match snd (main_loop m inputs variables) with
  | AtPrompt variables' | Returned variables' => variables' = variables
  | Lost _ => True
  end.
Proof. intros H. apply main_loop_read_only, H. Qed.

Lemma X21_witness :
  match snd (main_loop libm_ref ["x+1"; "y # 2"; "2*x"; "exit"] (<["x" := 5%float]> ∅)) with
  | AtPrompt variables' | Returned variables' => variables' = <["x" := 5%float]> ∅
  | Lost _ => True
  end.
Proof.
  apply (X21_lines_without_equals_keep_the_store libm_ref
           ["x+1"; "y # 2"; "2*x"; "exit"] (<["x" := 5%float]> ∅)).
  reflexivity.
Defined.

(** X22.  The store lives across the lines of a session: a line
    [name=rhs] whose right-hand side evaluates to [v] prints [v], and a
    later line [name] prints [v] again, for every identifier that is
    neither a function name nor ["exit"]. *)
Theorem X22_assignment_is_visible_on_later_lines
    (m : libm) (name rhs : string) (variables variables' : store) (v : float) :
  identifier name = true ->
  functions_count name = false ->
  String.eqb name "exit" = false ->
  EvaluateExpression m rhs variables = (Ok v, variables') ->
  main_loop m [(name ++ String "=" rhs)%string; name] variables =
  ([cout "> "; cout "Result : "; cout_double v; cout endl;
    cout "> "; cout "Result : "; cout_double v; cout endl; cout "> "],
   AtPrompt (<[name := v]> variables')).
Proof.
  intros Hname Hf Hexit Hrhs.
  rewrite (main_loop_result m _ v _ variables (<[name := v]> variables')).
  - rewrite (main_loop_result m name v [] _ (<[name := v]> variables')).
    + reflexivity.
    + exact Hexit.
    + apply EvaluateExpression_variable; [assumption..|apply lookup_insert_eq].
  - apply (assignment_is_not_exit name "" rhs).
  - apply (EvaluateExpression_assign m name "" rhs); [assumption|reflexivity|assumption].
Qed.

Lemma X22_witness :
  main_loop libm_ref ["n=2+3"; "n"] ∅ =
  ([cout "> "; cout "Result : "; cout_double 5; cout endl;
    cout "> "; cout "Result : "; cout_double 5; cout endl; cout "> "],
   AtPrompt (<["n" := 5%float]> ∅)).
Proof.
  apply (X22_assignment_is_visible_on_later_lines libm_ref "n" "2+3" ∅ ∅ 5%float);
    reflexivity.
Defined.

(** X23.  [GetPrint] gives back the text of a lexed token: the name for
    a [FUNCTION], [VARIABLE] or [ASSIGNMENT] token (without the ['='] and
    the white space the lexer consumed), the character itself for an
    operator or a parenthesis, and the empty string for [END]. *)
Theorem X23_GetPrint_of_a_lexed_token (m : libm) (to_string : float -> string) :
  (forall name rest token rest',
      identifier name = true ->
      alnum_follows rest = false ->
      GetNextToken m (name ++ rest) = Ok (token, rest') ->
      GetPrint to_string token = name) /\
  (forall c rest,
      strchr "+-*/^=()" c = true ->
      exists token,
        GetNextToken m (String c rest) = Ok (token, rest) /\
        GetPrint to_string token = String c "") /\
  (forall e token rest,
      all_space e = true ->
      GetNextToken m e = Ok (token, rest) ->
      GetPrint to_string token = "").
Proof.
  split; [|split].
  - intros name rest token rest' Hname Hrest H.
    rewrite GetNextToken_identifier in H by assumption.
    destruct (skip_space rest) as [|c3 e3]; [|destruct (Ascii.eqb c3 "=")];
      inversion H; subst; unfold identifier_token;
      try destruct (functions_count name); reflexivity.
  - intros c rest H. cbn [strchr] in H.
    repeat (apply orb_prop in H as [H|H]); apply Ascii.eqb_eq in H; subst;
      eexists; split; reflexivity.
  - intros e token rest He H.
    unfold GetNextToken in H. rewrite skip_space_all_space in H by assumption.
    inversion H; subst. reflexivity.
Qed.

Lemma X23_witness :
  GetPrint (fun _ => ""%string) (assignment_token "total") = "total".
Proof.
  apply (proj1 (X23_GetPrint_of_a_lexed_token libm_ref (fun _ => ""%string))
           "total" " = 1" (assignment_token "total") " 1"); reflexivity.
Defined.

(** * Grouping by precedence, and what follows an undefined variable *)

Section GroupingFacts.

Variable m : libm.

(** The loop of lines 268-274 pops exactly the run of tokens on top of
    the stack whose precedence is greater than or equal to that of [c]. *)
Lemma pop_higher_spec (c : ascii) (stack : list Token) :
  forall result,
  exists popped kept,
    stack = popped ++ kept /\
    pop_higher c stack result = (kept, result ++ popped) /\
    Forall (fun token => (GetPrecedence c <= GetPrecedence (op token))%Z) popped /\
    stack_below (GetPrecedence c) kept.
Proof.
  induction stack as [|top stack IH]; intros result.
  - exists [], []. simpl. rewrite app_nil_r. repeat split. constructor.
  - simpl. destruct (GetPrecedence (op top) >=? GetPrecedence c)%Z eqn:E.
    + destruct (IH (result ++ [top])) as (popped & kept & -> & Hp & Hall & Hk).
      exists (top :: popped), kept. rewrite Hp, <- app_assoc. repeat split; [|exact Hk].
      constructor; [|exact Hall]. apply Z.geb_le in E. exact E.
    + exists [], (top :: stack). rewrite app_nil_r. repeat split; [constructor|].
      simpl. rewrite Z.geb_leb in E. apply Z.leb_gt in E. exact E.
Qed.

Lemma pop_higher_below (o : ascii) (stack result : list Token) :
  stack_below (GetPrecedence o) stack -> pop_higher o stack result = (stack, result).
Proof.
  destruct stack as [|top stack]; [reflexivity|]. simpl. intros H.
  rewrite Z.geb_leb. destruct (Z.leb_spec (GetPrecedence o) (GetPrecedence (op top)));
    [lia|reflexivity].
Qed.

Lemma pop_higher_pending (o' o : ascii) (stack result : list Token) :
  (GetPrecedence o' <= GetPrecedence o)%Z ->
  pop_higher o' (operator_token o :: stack) result =
  pop_higher o' stack (result ++ [operator_token o]).
Proof.
  intros H. simpl. rewrite Z.geb_leb.
  destruct (Z.leb_spec (GetPrecedence o') (GetPrecedence o)); [reflexivity|lia].
Qed.

Lemma pop_to_open_pending (o : ascii) (stack result : list Token) :
  binary_operator o = true ->
  pop_to_open (operator_token o :: stack) result =
  pop_to_open stack (result ++ [operator_token o]).
Proof.
  intros H. apply binary_operator_cases in H.
  destruct H as [->|[->|[->|[->| ->]]]]; reflexivity.
Qed.

Lemma stack_below_higher (q : Z) (stack : list Token) :
  stack_below q stack -> stack_below (q + 1) stack.
Proof. destruct stack; simpl; [auto|lia]. Qed.

Lemma converts_literal (q : Z) (a : string) :
  integer_literal a = true ->
  converts_as_unit m q a [number_token (integer_value a)].
Proof.
  intros Ha stack result variables _. split; [|split].
  - apply InfixToPostfix_from_last_integer, Ha.
  - intros o rest Ho _.
    rewrite InfixToPostfix_from_integer
      by (try assumption; apply binary_operator_ends_number; assumption).
    apply InfixToPostfix_from_binary, Ho.
  - intros rest.
    rewrite InfixToPostfix_from_integer by (try assumption; reflexivity).
    apply InfixToPostfix_from_closing.
Qed.

Lemma converts_parenthesis (q : Z) (s : string) (p : list Token) :
  converts_as_unit m 1 s p ->
  converts_as_unit m q (String "(" (s ++ ")")) p.
Proof.
  intros Hs stack result variables _.
  assert (stack_below 1 (parenthesis_token "("%char :: stack)) as Hopen
    by (simpl; reflexivity).
  assert (forall rest,
             InfixToPostfix_from m (String "(" (s ++ ")") ++ rest) stack result variables =
             InfixToPostfix_from m rest stack (result ++ p) variables) as Hinner.
  { intros rest.
    change (String "(" (s ++ ")") ++ rest)%string
      with (String "(" ((s ++ ")") ++ rest)%string).
    rewrite append_assoc, InfixToPostfix_from_open.
    change (")" ++ rest)%string with (String ")" rest).
    destruct (Hs (parenthesis_token "("%char :: stack) result variables Hopen)
      as (_ & _ & Hclose).
    rewrite Hclose, pop_to_open_open. reflexivity. }
  split; [|split].
  - rewrite <- (append_empty (String "(" (s ++ ")"))).
    rewrite Hinner. apply InfixToPostfix_from_end.
  - intros o rest Ho _. rewrite Hinner. apply InfixToPostfix_from_binary, Ho.
  - intros rest. rewrite Hinner. apply InfixToPostfix_from_closing.
Qed.

Lemma converts_binary (s1 s2 : string) (p1 p2 : list Token) (o : ascii) :
  binary_operator o = true ->
  converts_as_unit m (GetPrecedence o) s1 p1 ->
  converts_as_unit m (GetPrecedence o + 1) s2 p2 ->
  converts_as_unit m (GetPrecedence o) (s1 ++ String o s2) (p1 ++ p2 ++ [operator_token o]).
Proof.
  intros Ho H1 H2 stack result variables Hbelow.
  assert (stack_below (GetPrecedence o + 1) (operator_token o :: stack)) as Hpending
    by (simpl; lia).
  assert (forall rest,
             InfixToPostfix_from m ((s1 ++ String o s2) ++ rest) stack result variables =
             InfixToPostfix_from m (s2 ++ rest) (operator_token o :: stack)
               (result ++ p1) variables) as Hleft.
  { intros rest. rewrite append_assoc.
    change (String o s2 ++ rest)%string with (String o (s2 ++ rest)%string).
    destruct (H1 stack result variables Hbelow) as (_ & Hop & _).
    rewrite Hop by (try assumption; lia).
    rewrite pop_higher_below by assumption. reflexivity. }
  destruct (H2 (operator_token o :: stack) (result ++ p1) variables Hpending)
    as (Hend & Hop & Hclose).
  assert ((result ++ p1) ++ p2 ++ [operator_token o] =
          result ++ p1 ++ p2 ++ [operator_token o]) as Hassoc
    by (rewrite <- !app_assoc; reflexivity).
  split; [|split].
  - rewrite <- (append_empty (s1 ++ String o s2)), Hleft, append_empty, Hend.
    rewrite <- Hassoc, <- !app_assoc. reflexivity.
  - intros o' rest Ho' Hle. rewrite Hleft, Hop by (try assumption; lia).
    rewrite pop_higher_pending by assumption.
    rewrite <- Hassoc, <- !app_assoc. reflexivity.
  - intros rest. rewrite Hleft, Hclose.
    rewrite pop_to_open_pending by assumption.
    rewrite <- Hassoc, <- !app_assoc. reflexivity.
Qed.

Lemma converts_higher (q : Z) (s : string) (p : list Token) :
  converts_as_unit m (q + 1) s p -> converts_as_unit m q s p.
Proof.
  intros H stack result variables Hbelow.
  destruct (H stack result variables (stack_below_higher _ _ Hbelow)) as (Hend & Hop & Hclose).
  split; [exact Hend|split; [|exact Hclose]].
  intros o rest Ho Hle. apply Hop; [assumption|lia].
Qed.

Lemma parses_converts (q : Z) (s : string) (p : list Token) (v : outcome float) :
  parses m q s p v -> converts_as_unit m q s p.
Proof.
  induction 1.
  - apply converts_literal; assumption.
  - apply converts_parenthesis; assumption.
  - apply converts_binary; assumption.
  - apply converts_higher; assumption.
Qed.

(** The evaluator runs a sequence piece by piece. *)
Lemma EvaluatePostfix_stack_app (pre post : list Token) :
  forall stack variables,
    EvaluatePostfix_stack m (pre ++ post) stack variables =
    (stack' <- EvaluatePostfix_stack m pre stack ;;
     EvaluatePostfix_stack m post stack') variables.
Proof.
  induction pre as [|token pre IH]; intros stack variables; [reflexivity|].
  simpl. unfold bind, lift in *. destruct (type token); try apply IH.
  - destruct stack as [|top [|bottom stack]]; simpl; try reflexivity.
    destruct (GetOperatorResult m (op token) bottom top); simpl; try reflexivity. apply IH.
  - destruct stack as [|arg stack]; simpl; try reflexivity.
    destruct (GetFunctionResult m (func token) arg); simpl; try reflexivity. apply IH.
  - rewrite map_contains_spec. unfold map_index.
    destruct (variables !! func token) eqn:E; simpl; rewrite ?E; simpl; [apply IH|reflexivity].
Qed.

Lemma EvaluatePostfix_loop_app (pre post : list Token) :
  forall stack variables,
    EvaluatePostfix_loop m (pre ++ post) stack variables =
    (stack' <- EvaluatePostfix_stack m pre stack ;;
     EvaluatePostfix_loop m post stack') variables.
Proof.
  induction pre as [|token pre IH]; intros stack variables; [reflexivity|].
  simpl. unfold bind, lift in *. destruct (type token); try apply IH.
  - destruct stack as [|top [|bottom stack]]; simpl; try reflexivity.
    destruct (GetOperatorResult m (op token) bottom top); simpl; try reflexivity. apply IH.
  - destruct stack as [|arg stack]; simpl; try reflexivity.
    destruct (GetFunctionResult m (func token) arg); simpl; try reflexivity. apply IH.
  - rewrite map_contains_spec. unfold map_index.
    destruct (variables !! func token) eqn:E; simpl; rewrite ?E; simpl; [apply IH|reflexivity].
Qed.

Lemma parses_evaluates (q : Z) (s : string) (p : list Token) (v : outcome float) :
  parses m q s p v ->
  forall stack variables,
    EvaluatePostfix_stack m p stack variables =
    (match v with
     | Ok r => Ok (r :: stack)
     | Throw e => Throw e
     | Undefined => Undefined
     | OutOfFuel => OutOfFuel
     end, variables).
Proof.
  induction 1 as [q a Ha|q s p v H IH|s1 p1 v1 o s2 p2 v2 Ho H1 IH1 H2 IH2|q s p v H IH];
    intros stack variables; try apply IH.
  - reflexivity.
  - rewrite EvaluatePostfix_stack_app. unfold bind. rewrite IH1.
    destruct v1 as [r1| | |]; try reflexivity.
    rewrite EvaluatePostfix_stack_app. unfold bind. rewrite IH2.
    destruct v2 as [r2| | |]; try reflexivity.
    simpl. unfold bind, lift. simpl.
    destruct (GetOperatorResult m o r1 r2); reflexivity.
Qed.

Lemma parses_correct (q : Z) (s : string) (p : list Token) (v : outcome float)
    (variables : store) :
  parses m q s p v ->
  InfixToPostfix m s variables = (Ok p, variables) /\
  EvaluateExpression m s variables = (v, variables).
Proof.
  intros H.
  assert (InfixToPostfix m s variables = (Ok p, variables)) as Hp.
  { destruct (parses_converts q s p v H [] [] variables I) as (Hend & _ & _).
    unfold InfixToPostfix. rewrite Hend, app_nil_r. reflexivity. }
  split; [exact Hp|].
  rewrite (EvaluateExpression_of_postfix m _ _ _ Hp). unfold EvaluatePostfix.
  rewrite <- (app_nil_r p), EvaluatePostfix_loop_app. unfold bind.
  rewrite (parses_evaluates q s p v H). destruct v; reflexivity.
Qed.

End GroupingFacts.

Section VariableFacts.

Variable m : libm.

Lemma EvaluatePostfix_stack_store (postfix : list Token) :
  forall stack variables,
    snd (EvaluatePostfix_stack m postfix stack variables) = variables.
Proof.
  induction postfix as [|token postfix IH]; intros stack variables; [reflexivity|].
  simpl. unfold bind, lift. destruct (type token); try apply IH.
  - destruct stack as [|top [|bottom stack]]; simpl; try reflexivity.
    destruct (GetOperatorResult m (op token) bottom top); simpl; try reflexivity. apply IH.
  - destruct stack as [|arg stack]; simpl; try reflexivity.
    destruct (GetFunctionResult m (func token) arg); simpl; try reflexivity. apply IH.
  - rewrite map_contains_spec. unfold map_index.
    destruct (variables !! func token) eqn:E; simpl; rewrite ?E; simpl; [apply IH|reflexivity].
Qed.

(** What a sequence that mentions a missing variable ends in: the
    failure of the tokens before it, if they fail, and the
    undefined-variable error otherwise. *)
Lemma EvaluatePostfix_loop_reaches_missing name pre post stack (variables : store) :
  variables !! name = None ->
  EvaluatePostfix_loop m (pre ++ variable_token name :: post) stack variables =
  (_ <- EvaluatePostfix_stack m pre stack ;;
   lift (Throw (UndefinedVariable name))) variables.
Proof.
  intros Hnone. rewrite EvaluatePostfix_loop_app. unfold bind.
  pose proof (EvaluatePostfix_stack_store pre stack variables) as Hs.
  destruct (EvaluatePostfix_stack m pre stack variables) as [[stack'| | |] variables'];
    simpl in Hs; subst; try reflexivity.
  apply EvaluatePostfix_loop_variable_missing, Hnone.
Qed.

Lemma binary_operator_class (o : ascii) :
  binary_operator o = true ->
  isalnum o = false /\ isspace o = false /\ Ascii.eqb o "=" = false.
Proof.
  intros H. apply binary_operator_cases in H.
  destruct H as [->|[->|[->|[->| ->]]]]; repeat split.
Qed.

Lemma InfixToPostfix_variable_operation (name ws1 ws2 a : string) (o : ascii)
    (variables : store) :
  identifier name = true -> functions_count name = false ->
  all_space ws1 = true -> all_space ws2 = true ->
  binary_operator o = true -> integer_literal a = true ->
  InfixToPostfix m (name ++ ws1 ++ String o (ws2 ++ a)) variables =
  (Ok [variable_token name; number_token (integer_value a); operator_token o], variables).
Proof.
  intros Hname Hf Hws1 Hws2 Ho Ha.
  destruct (binary_operator_class o Ho) as (Hal & Hsp & Heq).
  assert (skip_space (ws1 ++ String o (ws2 ++ a)) = String o (ws2 ++ a)%string) as Hskip.
  { rewrite skip_space_app by assumption. simpl. rewrite Hsp. reflexivity. }
  unfold InfixToPostfix.
  rewrite (InfixToPostfix_from_step m _ (variable_token name) (String o (ws2 ++ a)%string)).
  - cbn [type]. rewrite InfixToPostfix_from_binary by assumption. cbn [pop_higher fst snd].
    rewrite InfixToPostfix_from_spaces by assumption.
    rewrite InfixToPostfix_from_last_integer by assumption. reflexivity.
  - destruct name; discriminate.
  - rewrite GetNextToken_name; try assumption.
    + rewrite Hskip. unfold identifier_token. rewrite Hf. reflexivity.
    + destruct ws1 as [|c ws1]; [exact Hal|].
      simpl in Hws1. apply andb_prop in Hws1 as [Hc _].
      change (isalnum c = false). apply space_not_alnum, Hc.
    + rewrite Hskip. exact Heq.
Qed.

End VariableFacts.

(** * The claims on grouping and on undefined variables *)

(** C2.  [GetPrecedence] is the table [+ -] 1, [* /] 2, [^] 3 and 0 for
    anything else.  On an operator the converter pops exactly the run of
    tokens on top of its stack whose precedence is greater than or equal
    to the incoming one's (the loop of lines 268-274) and pushes the
    operator.  Hence every expression of the grammar

      E(q) ::= E(q) o E(q+1) | E(q+1) | literal | ( E(1) )

    ([o] a binary operator of precedence [q]; integer literals), of any
    length and nesting, is converted to the postfix order of its tree and
    evaluates to the value of its tree: operators of higher precedence
    bind tighter and operators of one precedence, [^] included, group to
    the left.  For integer literals [a b c] and binary operators [o1 o2],
    [a o1 b o2 c] becomes [a b o1 c o2] when the precedence of [o1] is
    greater than or equal to that of [o2], and [a b c o2 o1] otherwise.
    ["2+3*4"] is 14, ["(2+3)*4"] is 20, ["2^3^2"] is [(2^3)^2 = 64] and
    ["1-2*3-4"], where one operator pops two, is -9. *)
Theorem C2_precedence_and_left_grouping (m : libm) (variables : store) :
  pow m 2 3 = 8%float ->
  pow m 8 2 = 64%float ->
  (GetPrecedence "+" = 1 /\ GetPrecedence "-" = 1 /\ GetPrecedence "*" = 2 /\
   GetPrecedence "/" = 2 /\ GetPrecedence "^" = 3 /\
   forall c, binary_operator c = false -> GetPrecedence c = 0)%Z /\
  (forall (a b c : string) (o1 o2 : ascii),
      integer_literal a = true -> integer_literal b = true -> integer_literal c = true ->
      binary_operator o1 = true -> binary_operator o2 = true ->
      InfixToPostfix m (a ++ String o1 (b ++ String o2 c)) variables =
      (Ok (if (GetPrecedence o1 >=? GetPrecedence o2)%Z
           then [number_token (integer_value a); number_token (integer_value b);
                 operator_token o1; number_token (integer_value c); operator_token o2]
           else [number_token (integer_value a); number_token (integer_value b);
                 number_token (integer_value c); operator_token o2; operator_token o1]),
       variables)) /\
  (forall (x y z : float) (o1 o2 : ascii),
      EvaluatePostfix m
        [number_token x; number_token y; operator_token o1; number_token z; operator_token o2]
        variables =
      (r <- lift (GetOperatorResult m o1 x y) ;; lift (GetOperatorResult m o2 r z)) variables) /\
  EvaluateExpression m "2+3*4" variables = (Ok 14%float, variables) /\
  EvaluateExpression m "(2+3)*4" variables = (Ok 20%float, variables) /\
  InfixToPostfix m "2^3^2" variables =
    (Ok [number_token 2; number_token 3; operator_token "^"%char;
         number_token 2; operator_token "^"%char], variables) /\
  EvaluateExpression m "2^3^2" variables = (Ok (pow m (pow m 2 3) 2), variables) /\
  EvaluateExpression m "2^3^2" variables = (Ok 64%float, variables) /\
  (forall (c : ascii) (stack result : list Token),
      exists popped kept,
        stack = popped ++ kept /\
        pop_higher c stack result = (kept, result ++ popped) /\
        Forall (fun token => (GetPrecedence c <= GetPrecedence (op token))%Z) popped /\
        stack_below (GetPrecedence c) kept) /\
  (forall (c : ascii) (rest : string) (stack result : list Token),
      binary_operator c = true ->
      InfixToPostfix_from m (String c rest) stack result variables =
      InfixToPostfix_from m rest
        (operator_token c :: fst (pop_higher c stack result))
        (snd (pop_higher c stack result)) variables) /\
  (forall (q : Z) (s : string) (p : list Token) (v : outcome float),
      parses m q s p v ->
      InfixToPostfix m s variables = (Ok p, variables) /\
      EvaluateExpression m s variables = (v, variables)) /\
  InfixToPostfix m "1-2*3-4" variables =
    (Ok [number_token 1; number_token 2; number_token 3; operator_token "*"%char;
         operator_token "-"%char; number_token 4; operator_token "-"%char], variables) /\
  EvaluateExpression m "1-2*3-4" variables = (Ok (-9)%float, variables) /\
  InfixToPostfix m "1+2*3^4-5" variables =
    (Ok [number_token 1; number_token 2; number_token 3; number_token 4;
         operator_token "^"%char; operator_token "*"%char; operator_token "+"%char;
         number_token 5; operator_token "-"%char], variables).
Proof.
  intros Hpow1 Hpow2.
  repeat match goal with |- _ /\ _ => split end.
  - reflexivity.
  - reflexivity.
  - reflexivity.
  - reflexivity.
  - reflexivity.
  - intros c H. unfold binary_operator in H. simpl in H.
    repeat (apply orb_false_elim in H as [? H]).
    cbv [GetPrecedence precedences find_precedence].
    rewrite (Ascii.eqb_sym "+" c), (Ascii.eqb_sym "-" c), (Ascii.eqb_sym "*" c),
      (Ascii.eqb_sym "/" c), (Ascii.eqb_sym "^" c).
    repeat match goal with E : Ascii.eqb c _ = false |- _ => rewrite E; clear E end.
    reflexivity.
  - intros. apply InfixToPostfix_two_operators; assumption.
  - intros x y z o1 o2. unfold EvaluatePostfix.
    rewrite !EvaluatePostfix_loop_number, EvaluatePostfix_loop_operator.
    unfold bind, lift.
    destruct (GetOperatorResult m o1 x y) as [r| | |]; try reflexivity.
    rewrite EvaluatePostfix_loop_number, EvaluatePostfix_loop_operator.
    unfold bind, lift.
    destruct (GetOperatorResult m o2 r z); reflexivity.
  - destruct m; vm_compute; reflexivity.
  - destruct m; vm_compute; reflexivity.
  - destruct m; vm_compute; reflexivity.
  - destruct m; vm_compute; reflexivity.
  - destruct m as [pw sn cs tn lg sq ex]; simpl in Hpow1, Hpow2.
    vm_compute. rewrite Hpow1, Hpow2. reflexivity.
  - intros c stack result. apply pop_higher_spec.
  - intros c rest stack result Hc. apply InfixToPostfix_from_binary, Hc.
  - intros q s p v H. apply (parses_correct m q s p v variables H).
  - destruct m; vm_compute; reflexivity.
  - destruct m; vm_compute; reflexivity.
  - destruct m; vm_compute; reflexivity.
Qed.

Lemma C2_witness :
  (pow libm_ref 2 3 = 8%float /\ pow libm_ref 8 2 = 64%float) /\
  EvaluateExpression libm_ref "2^3^2" ∅ = (Ok 64%float, ∅) /\
  parses libm_ref 1 "1-2*3-4"
    [number_token 1; number_token 2; number_token 3; operator_token "*"%char;
     operator_token "-"%char; number_token 4; operator_token "-"%char] (Ok (-9)%float) /\
  EvaluateExpression libm_ref "1-2*3-4" ∅ = (Ok (-9)%float, ∅).
Proof.
  assert (parses libm_ref 1 "1-2*3-4"
            [number_token 1; number_token 2; number_token 3; operator_token "*"%char;
             operator_token "-"%char; number_token 4; operator_token "-"%char]
            (Ok (-9)%float)) as Hparse.
  { exact (parses_binary libm_ref "1-2*3" _ _ "-" "4" _ _ eq_refl
             (parses_binary libm_ref "1" _ _ "-" "2*3" _ _ eq_refl
                (parses_literal libm_ref 1 "1" eq_refl)
                (parses_binary libm_ref "2" _ _ "*" "3" _ _ eq_refl
                   (parses_literal libm_ref 2 "2" eq_refl)
                   (parses_literal libm_ref 3 "3" eq_refl)))
             (parses_literal libm_ref 2 "4" eq_refl)). }
  pose proof (C2_precedence_and_left_grouping libm_ref ∅ eq_refl eq_refl) as H.
  split; [split; reflexivity|].
  split; [apply H|]. split; [exact Hparse|].
  destruct H as (_ & _ & _ & _ & _ & _ & _ & _ & _ & _ & Hgrammar & _).
  apply (Hgrammar 1%Z _ _ _ Hparse).
Defined.

(** C7 (amended).  When the evaluator reaches a [VARIABLE] token whose
    name the store lacks, it throws "Undefined variable: name" and
    pushes no zero; a name the store has pushes its stored value.  A
    postfix sequence that mentions the missing name so ends in the
    failure of the tokens before the mention, if they fail, and in the
    undefined-variable error otherwise, and so does every expression
    converted to such a sequence.  For every identifier [name] that is no
    function name, binary operator [o] and integer literal [a], the
    expression [name o a] (blanks allowed around [o], as in ["y + 1"])
    throws the undefined-variable error when [name] is missing and
    evaluates [value o a] when it is there.  What an assignment token
    discards is never evaluated, and an error that comes first wins: the
    claim does not extend to those expressions. *)
Theorem C7_undefined_variable_fails (m : libm) (variables : store) :
  (forall name postfix stack,
      variables !! name = None ->
      EvaluatePostfix_loop m (variable_token name :: postfix) stack variables =
      (Throw (UndefinedVariable name), variables)) /\
  (forall name postfix v,
      variables !! name = None ->
      In (variable_token name) postfix ->
      fst (EvaluatePostfix m postfix variables) <> Ok v) /\
  (forall name v postfix stack,
      variables !! name = Some v ->
      EvaluatePostfix_loop m (variable_token name :: postfix) stack variables =
      EvaluatePostfix_loop m postfix (v :: stack) variables) /\
  (variables !! "y" = None ->
   EvaluateExpression m "y + 1" variables = (Throw (UndefinedVariable "y"), variables)) /\
  (forall name pre post stack,
      variables !! name = None ->
      EvaluatePostfix_loop m (pre ++ variable_token name :: post) stack variables =
      (_ <- EvaluatePostfix_stack m pre stack ;;
       lift (Throw (UndefinedVariable name))) variables) /\
  (forall e name pre post variables0,
      InfixToPostfix m e variables0 = (Ok (pre ++ variable_token name :: post), variables) ->
      variables !! name = None ->
      EvaluateExpression m e variables0 =
      (_ <- EvaluatePostfix_stack m pre [] ;;
       lift (Throw (UndefinedVariable name))) variables) /\
  (forall name ws1 o ws2 a,
      identifier name = true -> functions_count name = false ->
      all_space ws1 = true -> all_space ws2 = true ->
      binary_operator o = true -> integer_literal a = true ->
      (variables !! name = None ->
       EvaluateExpression m (name ++ ws1 ++ String o (ws2 ++ a)) variables =
       (Throw (UndefinedVariable name), variables)) /\
      (forall v,
          variables !! name = Some v ->
          EvaluateExpression m (name ++ ws1 ++ String o (ws2 ++ a)) variables =
          (GetOperatorResult m o v (integer_value a), variables))).
Proof.
  split; [|split; [|split; [|split; [|split; [|split]]]]].
  - intros; apply EvaluatePostfix_loop_variable_missing; assumption.
  - intros name postfix v Hnone Hin.
    apply EvaluatePostfix_loop_missing_no_value with (name := name); assumption.
  - intros; apply EvaluatePostfix_loop_variable_found; assumption.
  - intros Hnone.
    assert (InfixToPostfix m "y + 1" variables =
            (Ok [variable_token "y"; number_token 1; operator_token "+"%char], variables)) as H.
    { destruct m; vm_compute; reflexivity. }
    rewrite EvaluateExpression_eq. unfold bind. rewrite H.
    apply EvaluatePostfix_loop_variable_missing; assumption.
  - intros; apply EvaluatePostfix_loop_reaches_missing; assumption.
  - intros e name pre post variables0 H Hnone.
    rewrite EvaluateExpression_eq. unfold bind at 1. rewrite H.
    apply EvaluatePostfix_loop_reaches_missing, Hnone.
  - intros name ws1 o ws2 a Hname Hf Hws1 Hws2 Ho Ha.
    pose proof (InfixToPostfix_variable_operation m name ws1 ws2 a o variables
                  Hname Hf Hws1 Hws2 Ho Ha) as H.
    rewrite (EvaluateExpression_of_postfix m _ _ _ H). unfold EvaluatePostfix. split.
    + intros Hnone. apply EvaluatePostfix_loop_variable_missing, Hnone.
    + intros v Hv.
      rewrite (EvaluatePostfix_loop_variable_found m name v) by assumption.
      rewrite EvaluatePostfix_loop_number, EvaluatePostfix_loop_operator.
      unfold bind, lift.
      destruct (GetOperatorResult m o v (integer_value a)); reflexivity.
Qed.

Lemma C7_witness :
  EvaluateExpression libm_ref "total  * 12" (<["x" := 5%float]> ∅) =
    (Throw (UndefinedVariable "total"), <["x" := 5%float]> ∅) /\
  EvaluateExpression libm_ref "x  * 12" (<["x" := 5%float]> ∅) =
    (Ok 60%float, <["x" := 5%float]> ∅).
Proof.
  pose proof (C7_undefined_variable_fails libm_ref (<["x" := 5%float]> ∅))
    as (_ & _ & _ & _ & _ & _ & H).
  split.
  - apply (proj1 (H "total" "  " "*"%char " " "12"
                    eq_refl eq_refl eq_refl eq_refl eq_refl eq_refl)).
    reflexivity.
  - apply (proj2 (H "x" "  " "*"%char " " "12"
                    eq_refl eq_refl eq_refl eq_refl eq_refl eq_refl) 5%float).
    reflexivity.
Defined.

(** C7, as stated, fails: [y] has no value in the empty store, yet
    ["y + x = 5"], which mentions it, returns 5 (the assignment token
    discards the [y +] read so far), and ["1/0 + y"] fails with the
    division by zero that comes first, not with the undefined-variable
    error. *)
Lemma C7_counterexample :
  (∅ : store) !! "y" = None /\
  EvaluateExpression libm_ref "y + x = 5" ∅ = (Ok 5%float, <["x" := 5%float]> ∅) /\
  EvaluateExpression libm_ref "1/0 + y" ∅ = (Throw DivisionByZero, ∅).
Proof. repeat split; vm_compute; reflexivity. Qed.
